(** * rmw_dps_cpp: the discovery listener of [custom_node_info.hpp]

    A shallow embedding of [NodeListener] (the decoder of discovery topic
    strings and the table of discovered nodes) and the properties of it that
    the specification states.

    Conventions of the embedding:
    - a [std::string] is a [string] (a sequence of bytes), a [const char *]
      is the [string] of the bytes before its terminating NUL;
    - a [size_t] is an [N] below [2^64]; sums and differences are written
      with their wrap-around ([+%], [-%]); [std::string::npos] is [2^64-1];
    - [std::string::substr] throws [std::out_of_range] when its position is
      past the end: functions that call it return a [result];
    - [std::map<std::string, Node>] is a [gmap string Node], iterated in the
      order of its keys;
    - the guard condition is outside the code: a call of
      [rmw_trigger_guard_condition] is an event of the trace, and the value
      it returns is an argument of [onPublication];
    - every member function holds [mutex_] from start to end: it is given
      its sequential meaning, a function of the table; threads and the lock
      itself are not part of the embedding. *)

From Stdlib Require Import Ascii.
From stdpp Require Import gmap strings list fin_maps sorting.

Local Open Scope N_scope.

(** ** Results of code that may throw *)

Inductive exn : Type :=
| out_of_range      (* std::out_of_range, thrown by std::string::substr *)
| fuel_exhausted.   (* the bound on the iterations of a loop was reached *)

Inductive result (A : Type) : Type :=
| Ok (a : A)
| Throw (e : exn).
Arguments Ok {A} a.
Arguments Throw {A} e.

Definition bind {A B : Type} (r : result A) (k : A -> result B) : result B :=
  match r with
  | Ok a => k a
  | Throw e => Throw e
  end.

Notation "'do' x <- r ; k" := (bind r (fun x => k))
  (at level 10, x name, r at level 100, k at level 200).

(** ** [size_t] and [std::string] *)

Definition size_t : Type := N.
Definition SIZE_MODULUS : N := 2 ^ 64.
Definition npos : size_t := SIZE_MODULUS - 1.

Definition size_t_add (a b : size_t) : size_t := (a + b) mod SIZE_MODULUS.
Definition size_t_sub (a b : size_t) : size_t := (a + SIZE_MODULUS - b) mod SIZE_MODULUS.
Infix "+%" := size_t_add (at level 50, left associativity).
Infix "-%" := size_t_sub (at level 50, left associativity).

Definition size (s : string) : size_t := N.of_nat (String.length s).
Definition strlen (c : string) : size_t := N.of_nat (String.length c).

(** A string that a program can hold: [size() <= max_size() < npos]. *)
Definition well_formed (s : string) : Prop := size s < npos.

Fixpoint string_drop (n : nat) (s : string) : string :=
  match n, s with
  | O, _ => s
  | S n', String _ s' => string_drop n' s'
  | S _, EmptyString => EmptyString
  end.

Fixpoint string_take (n : nat) (s : string) : string :=
  match n, s with
  | S n', String c s' => String c (string_take n' s')
  | _, _ => EmptyString
  end.

(** The lowest index [i >= pos] at which [needle] starts in [s]. *)
Fixpoint find_from (needle s : string) (pos : nat) {struct s} : option nat :=
  match pos with
  | O =>
      if String.prefix needle s then Some O
      else match s with
           | EmptyString => None
           | String _ s' => option_map S (find_from needle s' O)
           end
  | S pos' =>
      match s with
      | EmptyString => None
      | String _ s' => option_map S (find_from needle s' pos')
      end
  end.

(** [s.find(needle, pos)] *)
Definition find (s needle : string) (pos : size_t) : size_t :=
  match find_from needle s (N.to_nat pos) with
  | Some i => N.of_nat i
  | None => npos
  end.

(** [s.substr(pos, n)]: the characters [pos, pos + min(n, size - pos))]. *)
Definition substr (s : string) (pos n : size_t) : result string :=
  if size s <? pos then Throw out_of_range
  else Ok (string_take (N.to_nat (N.min n (size s - pos)))
                       (string_drop (N.to_nat pos) s)).

(** ** [NodeListener::Topic] and [NodeListener::Node] *)

Record Topic : Type := mkTopic {
  topic : string;
  types : list string
}.

Record Node : Type := mkNode {
  name : string;
  namespace_ : string;
  publishers : list Topic;
  subscribers : list Topic
}.

#[global] Instance Topic_eq_dec : EqDecision Topic.
Proof. solve_decision. Defined.
#[global] Instance Node_eq_dec : EqDecision Node.
Proof. solve_decision. Defined.

(** [Topic topic;] *)
Definition Topic_default : Topic := mkTopic "" [].
(** [Node() : namespace_("/") {}] *)
Definition Node_default : Node := mkNode "" "/" [] [].

(** [std::vector<T>::operator==] from the elements' [operator==]. *)
Fixpoint vector_eq {A : Type} (eq : A -> A -> bool) (l1 l2 : list A) : bool :=
  match l1, l2 with
  | [], [] => true
  | x :: l1', y :: l2' => eq x y && vector_eq eq l1' l2'
  | _, _ => false
  end.

(** [Topic::operator==] *)
Definition Topic_eq (this that : Topic) : bool :=
  String.eqb (topic this) (topic that) &&
  vector_eq String.eqb (types this) (types that).

(** [Node::operator==] *)
Definition Node_eq (this that : Node) : bool :=
  String.eqb (name this) (name that) &&
  String.eqb (namespace_ this) (namespace_ that) &&
  vector_eq Topic_eq (publishers this) (publishers that) &&
  vector_eq Topic_eq (subscribers this) (subscribers that).

(** ** [NodeListener::process_topic_info] *)

(** The [while (pos != std::string::npos)] loop of lines 187-196. Every
    iteration either ends the loop or moves [pos] forward, so the body runs
    at most [size + 1] times: [fuel] is that bound. *)
Fixpoint types_loop (fuel : nat) (topic_str : string) (pos : size_t)
    (types : list string) : result (list string) :=
  if pos =? npos then Ok types
  else
    match fuel with
    | O => Throw fuel_exhausted
    | S fuel' =>
        let end_pos := find topic_str "," pos in
        if negb (end_pos =? npos) then
          do t <- substr topic_str pos (end_pos -% pos);
          types_loop fuel' topic_str (end_pos +% 1) (types ++ [t])
        else
          do t <- substr topic_str pos npos;
          types_loop fuel' topic_str end_pos (types ++ [t])
    end.

(** The [Topic &] out-parameter is the argument [t] and the second
    component of the result; the first component is the returned [bool]. *)
Definition process_topic_info (topic_str prefix : string) (t : Topic)
    : result (bool * Topic) :=
  let pos := find topic_str prefix 0 in
  if negb (pos =? npos) then
    let pos := pos +% strlen prefix in
    let end_pos := find topic_str "&types=" 0 in
    do r <-
      (if negb (end_pos =? npos) then
         do s <- substr topic_str pos (end_pos -% pos);
         Ok (s, end_pos +% strlen "&types=")
       else
         do s <- substr topic_str pos npos;
         Ok (s, pos));
    let '(topic_name, pos) := r in
    do tys <- types_loop (S (String.length topic_str)) topic_str pos (types t);
    Ok (true, mkTopic topic_name tys)
  else Ok (false, t).

(** ** The markers of [namespace_prefix.hpp]

    The header that declares the five markers is not part of the sources at
    hand; the code below takes them as parameters. *)
Class NamespacePrefix : Type := {
  dps_uuid_prefix : string;
  dps_namespace_prefix : string;
  dps_name_prefix : string;
  dps_publisher_prefix : string;
  dps_subscriber_prefix : string
}.

(** Modelled from the spec: [namespace_prefix.hpp] is missing; these are the
    markers of the specification's concrete scenarios
    (["_did_=abc123"], ["_nsp_=/ns"], ["_name_=talker"], ["_pub_=chatter..."]),
    with the subscriber marker written after the publisher's. They are used
    at concrete inputs only. *)
Definition scenario_prefixes : NamespacePrefix := {|
  dps_uuid_prefix := "_did_=";
  dps_namespace_prefix := "_nsp_=";
  dps_name_prefix := "_name_=";
  dps_publisher_prefix := "_pub_=";
  dps_subscriber_prefix := "_sub_="
|}.

(** ** The environment of the listener *)

Definition rmw_ret_t : Type := Z.
Definition RMW_RET_OK : rmw_ret_t := 0%Z.

(** A [rmw_guard_condition_t *]. *)
Definition guard_condition : Type := N.

Inductive event : Type :=
| trigger_guard_condition (gc : guard_condition)
    (* a call of rmw_trigger_guard_condition *)
| log_error (logger message : string).
    (* RCUTILS_LOG_ERROR_NAMED *)

#[global] Instance event_eq_dec : EqDecision event.
Proof. solve_decision. Defined.

Definition is_trigger (e : event) : bool :=
  match e with
  | trigger_guard_condition _ => true
  | log_error _ _ => false
  end.

(** How many times a trace invokes the guard condition. *)
Definition triggers (evs : list event) : nat := length (filter is_trigger evs).

(** ** [NodeListener] *)

Record NodeListener : Type := mkNodeListener {
  discovered_nodes_ : gmap string Node;
  graph_guard_condition_ : guard_condition
}.

(** [m[k]] of a [std::map]: a missing key is inserted with a
    default-constructed value. The result is the value and the map after. *)
Definition map_subscript (m : gmap string Node) (k : string)
    : Node * gmap string Node :=
  match m !! k with
  | Some v => (v, m)
  | None => (Node_default, <[k := Node_default]> m)
  end.

(** The order of [std::less<std::string>] on the keys. *)
Definition key_le (a b : string * Node) : Prop := Is_true (String.leb a.1 b.1).

(** The entries of a [std::map] as [for (auto it : m)] visits them. *)
Definition std_map_items (m : gmap string Node) : list (string * Node) :=
  merge_sort key_le (map_to_list m).

(** [std::count_if] *)
Definition count_if {A : Type} (p : A -> bool) (l : list A) : N :=
  N.of_nat (length (filter (fun x => Is_true (p x)) l)).

Section Listener.
Context {prefixes : NamespacePrefix}.

(** One iteration of the [for] loop of [onPublication] (lines 94-120) on
    the topic string [topic_str], from the [uuid] and [node] so far. *)
Definition decode_step (acc : string * Node) (topic_str : string)
    : result (string * Node) :=
  let '(uuid, node) := acc in
  let pos := find topic_str dps_uuid_prefix 0 in
  if negb (pos =? npos) then
    do u <- substr topic_str (pos +% strlen dps_uuid_prefix) npos;
    Ok (u, node)
  else
  let pos := find topic_str dps_namespace_prefix 0 in
  if negb (pos =? npos) then
    do ns <- substr topic_str (pos +% strlen dps_namespace_prefix) npos;
    Ok (uuid, mkNode (name node) ns (publishers node) (subscribers node))
  else
  let pos := find topic_str dps_name_prefix 0 in
  if negb (pos =? npos) then
    do n <- substr topic_str (pos +% strlen dps_name_prefix) npos;
    Ok (uuid, mkNode n (namespace_ node) (publishers node) (subscribers node))
  else
  do p <- process_topic_info topic_str dps_publisher_prefix Topic_default;
  let '(is_publisher, publisher) := p in
  if is_publisher then
    Ok (uuid, mkNode (name node) (namespace_ node)
                (publishers node ++ [publisher]) (subscribers node))
  else
  do s <- process_topic_info topic_str dps_subscriber_prefix Topic_default;
  let '(is_subscriber, subscriber) := s in
  if is_subscriber then
    Ok (uuid, mkNode (name node) (namespace_ node)
                (publishers node) (subscribers node ++ [subscriber]))
  else Ok (uuid, node).

(** The [for] loop over the topics of the publication. *)
Fixpoint decode_loop (topics : list string) (acc : string * Node)
    : result (string * Node) :=
  match topics with
  | [] => Ok acc
  | topic_str :: rest =>
      do acc' <- decode_step acc topic_str;
      decode_loop rest acc'
  end.

(** Lines 91-121: [std::string uuid; Node node;] and the loop. *)
Definition decode (topics : list string) : result (string * Node) :=
  decode_loop topics (EmptyString, Node_default).

(** [NodeListener::onPublication]. [topics] are the topic strings of the
    publication; [ret] is what [rmw_trigger_guard_condition] returns if it
    is called. The result is the listener after the call and the calls
    made to the environment. (The debug log line is left out.) *)
Definition onPublication (ret : rmw_ret_t) (listener : NodeListener)
    (topics : list string) : result (NodeListener * list event) :=
  do d <- decode topics;
  let '(uuid, node) := d in
  if negb (size uuid =? 0) then
    let '(old_node, nodes) := map_subscript (discovered_nodes_ listener) uuid in
    let nodes := <[uuid := node]> (map_subscript nodes uuid).2 in
    let listener' := mkNodeListener nodes (graph_guard_condition_ listener) in
    if negb (Node_eq old_node node) then
      let call := trigger_guard_condition (graph_guard_condition_ listener) in
      if negb (ret =? RMW_RET_OK)%Z then
        Ok (listener',
            [call; log_error "rmw_dps_cpp" "failed to trigger guard condition"])
      else Ok (listener', [call])
    else Ok (listener', [])
  else Ok (listener, []).

End Listener.

(** [NodeListener::get_discovered_nodes]: a vector of [size()] default
    nodes, filled in the order of the iteration. *)
Definition get_discovered_nodes (listener : NodeListener) : list Node :=
  let nodes := replicate (base.size (discovered_nodes_ listener)) Node_default in
  (foldl (fun '(nodes, i) (it : string * Node) => (<[i := it.2]> nodes, S i))
         (nodes, O) (std_map_items (discovered_nodes_ listener))).1.

(** [NodeListener::count_publishers] *)
Definition count_publishers (listener : NodeListener) (topic_name : string)
    : size_t :=
  foldl (fun count (it : string * Node) =>
           count +% count_if (fun publisher => String.eqb (topic publisher) topic_name)
                             (publishers it.2))
        0 (std_map_items (discovered_nodes_ listener)).

(** [NodeListener::count_subscribers] *)
Definition count_subscribers (listener : NodeListener) (topic_name : string)
    : size_t :=
  foldl (fun count (it : string * Node) =>
           count +% count_if (fun subscriber => String.eqb (topic subscriber) topic_name)
                             (subscribers it.2))
        0 (std_map_items (discovered_nodes_ listener)).


(** * Definitions of the specification

    What the claims speak of, stated apart from the code. *)

(** Where the topic name starts in [s]: after the first [prefix] at [p]. *)
Definition name_start (prefix : string) (p : nat) : nat :=
  (p + String.length prefix)%nat.

(** Two nodes differ when one of the four fields does. *)
Definition differs (a b : Node) : Prop :=
  name a <> name b \/ namespace_ a <> namespace_ b \/
  publishers a <> publishers b \/ subscribers a <> subscribers b.

(** Two nodes are structurally equal when the four fields are. *)
Definition structurally_equal (a b : Node) : Prop :=
  name a = name b /\ namespace_ a = namespace_ b /\
  publishers a = publishers b /\ subscribers a = subscribers b.

(** The segments of [s] between the occurrences of [sep]: every segment,
    the empty ones too, in the order of the string. *)
Fixpoint split_on (sep : Ascii.ascii) (s : string) : list string :=
  match s with
  | EmptyString => [EmptyString]
  | String c s' =>
      if Ascii.eqb c sep then EmptyString :: split_on sep s'
      else match split_on sep s' with
           | seg :: segs => String c seg :: segs
           | [] => [String c EmptyString]
           end
  end.

(** [c] occurs in [s]. *)
Fixpoint occurs (c : Ascii.ascii) (s : string) : bool :=
  match s with
  | EmptyString => false
  | String d s' => Ascii.eqb d c || occurs c s'
  end.

(** The segments joined by [sep]. *)
Fixpoint join (sep : Ascii.ascii) (segs : list string) : string :=
  match segs with
  | [] => EmptyString
  | [seg] => seg
  | seg :: segs' => seg +:+ String sep (join sep segs')
  end.

(** [marker] occurs somewhere in [s]. *)
Definition carries (marker s : string) : Prop :=
  exists before after : string, s = before +:+ marker +:+ after.

(** The descriptors of a list whose topic name is [topic_name]. *)
Definition named (topic_name : string) (descriptors : list Topic) : list Topic :=
  filter (fun d => topic d = topic_name) descriptors.

(** The publisher descriptors of all the records of a table. *)
Definition published (m : gmap string Node) : list Topic :=
  mjoin (publishers <$> (map_to_list m).*2).

(** The subscriber descriptors of all the records of a table. *)
Definition subscribed (m : gmap string Node) : list Topic :=
  mjoin (subscribers <$> (map_to_list m).*2).

(** The number of occurrences of [c] in [s]. *)
Fixpoint count_char (c : Ascii.ascii) (s : string) : nat :=
  match s with
  | EmptyString => O
  | String d s' => (if Ascii.eqb d c then 1 else 0) + count_char c s'
  end.

(** The descriptor that a string [s] with its first [prefix] at index [p]
    encodes for [process_topic_info], by where the first ["&types="] of [s]
    lies. *)
Definition descriptor_at (s prefix : string) (p : nat) : Topic :=
  match find_from "&types=" s 0 with
  | None =>
      mkTopic (string_drop (name_start prefix p) s)
              (split_on ","%char (string_drop (name_start prefix p) s))
  | Some e =>
      mkTopic (if (name_start prefix p <=? e)%nat
               then string_take (e - name_start prefix p)
                                (string_drop (name_start prefix p) s)
               else string_drop (name_start prefix p) s)
              (split_on ","%char (string_drop (e + 7) s))
  end.


(** * Concrete inputs *)

(** A listener that has seen nothing yet. *)
Definition new_listener : NodeListener := mkNodeListener ∅ 1.

(** The announcement of the specification's first scenario. *)
Definition talker_topics : list string :=
  ["_did_=abc123"; "_nsp_=/ns"; "_name_=talker";
   "_pub_=chatter&types=std_msgs/String"].

(** The record that the announcement decodes to. *)
Definition talker_node : Node :=
  mkNode "talker" "/ns" [mkTopic "chatter" ["std_msgs/String"]] [].

(** A listener that knows the talker. *)
Definition talker_listener : NodeListener :=
  mkNodeListener {["abc123" := talker_node]} 1.

(** A table with two records, three publishers of [chatter] in all. *)
Definition two_talkers : NodeListener :=
  mkNodeListener
    (<["n2" := mkNode "relay" "/" [mkTopic "chatter" ["A"; "B"];
                                   mkTopic "chatter" []]
                                  [mkTopic "chatter" ["A"]]]>
       {["abc123" := talker_node]}) 1.

(** * Properties *)

(** ** Arithmetic of [size_t] *)

Lemma npos_lt_modulus : npos < SIZE_MODULUS.
Proof. reflexivity. Qed.

Lemma size_t_add_small (a b : size_t) :
  a + b < SIZE_MODULUS -> a +% b = a + b.
Proof. intros Hlt. unfold size_t_add. by apply N.mod_small. Qed.

Lemma size_t_sub_small (a b : size_t) :
  b <= a -> a < SIZE_MODULUS -> a -% b = a - b.
Proof.
  intros Hle Hlt. unfold size_t_sub.
  replace (a + SIZE_MODULUS - b) with (a - b + 1 * SIZE_MODULUS) by lia.
  rewrite N.Div0.mod_add. apply N.mod_small. lia.
Qed.

(** A difference below zero wraps to a count that reaches past any string. *)
Lemma size_t_sub_wrapped (a b : size_t) :
  a < b -> b < SIZE_MODULUS -> a -% b = SIZE_MODULUS - (b - a).
Proof.
  intros Hlt Hb. unfold size_t_sub.
  replace (a + SIZE_MODULUS - b) with (SIZE_MODULUS - (b - a)) by lia.
  apply N.mod_small. lia.
Qed.

(** ** Strings *)

Lemma string_drop_length (n : nat) (s : string) :
  String.length (string_drop n s) = (String.length s - n)%nat.
Proof.
  revert s. induction n as [|n IH]; intros [|c s]; simpl; auto with lia.
Qed.

Lemma string_drop_drop (n m : nat) (s : string) :
  string_drop n (string_drop m s) = string_drop (m + n) s.
Proof.
  revert s. induction m as [|m IH]; intros s; simpl; [done|].
  destruct s as [|c s]; [by destruct n|]. apply IH.
Qed.

Lemma string_take_all (n : nat) (s : string) :
  (String.length s <= n)%nat -> string_take n s = s.
Proof.
  revert n. induction s as [|c s IH]; intros [|n] Hle; simpl in *;
    try done; try lia.
  f_equal. apply IH. lia.
Qed.

Lemma string_take_length (n : nat) (s : string) :
  String.length (string_take n s) = (n `min` String.length s)%nat.
Proof.
  revert s. induction n as [|n IH]; intros [|c s]; simpl; auto with lia.
Qed.

Lemma append_String (c : Ascii.ascii) (a b : string) :
  String c a +:+ b = String c (a +:+ b).
Proof. reflexivity. Qed.

Lemma append_Empty (b : string) : "" +:+ b = b.
Proof. reflexivity. Qed.

Lemma string_take_drop (n : nat) (s : string) :
  string_take n s +:+ string_drop n s = s.
Proof.
  revert s. induction n as [|n IH]; intros [|c s]; simpl; try done.
  by rewrite append_String, IH.
Qed.

Lemma string_drop_app (a b : string) :
  string_drop (String.length a) (a +:+ b) = b.
Proof.
  induction a as [|c a IH]; [done|]. rewrite append_String. simpl. apply IH.
Qed.

Lemma string_take_app (a b : string) :
  string_take (String.length a) (a +:+ b) = a.
Proof.
  induction a as [|c a IH]; [done|]. rewrite append_String. simpl.
  by rewrite IH.
Qed.

Lemma prefix_app (a b : string) : String.prefix a (a +:+ b) = true.
Proof.
  induction a as [|c a IH]; [by destruct b|]. rewrite append_String. simpl.
  destruct (Ascii.ascii_dec c c); [done|congruence].
Qed.

Lemma prefix_length (needle s : string) :
  String.prefix needle s = true -> (String.length needle <= String.length s)%nat.
Proof.
  revert s. induction needle as [|c needle IH]; intros [|d s]; simpl;
    try done; try lia.
  destruct (Ascii.ascii_dec c d); [|done]. intros Hp. apply IH in Hp. lia.
Qed.

Lemma prefix_take (needle s : string) :
  String.prefix needle s = true -> string_take (String.length needle) s = needle.
Proof.
  revert s. induction needle as [|c needle IH]; intros [|d s]; simpl; try done.
  destruct (Ascii.ascii_dec c d) as [->|]; [|done]. intros Hp. by rewrite IH.
Qed.

Lemma string_length_app (a b : string) :
  String.length (a +:+ b) = (String.length a + String.length b)%nat.
Proof. induction a as [|c a IH]; [done|]. rewrite append_String. simpl. lia. Qed.

(** [find_from] on a suffix. *)
Lemma find_from_drop (needle s : string) (pos : nat) :
  (pos <= String.length s)%nat ->
  find_from needle s pos
  = option_map (Nat.add pos) (find_from needle (string_drop pos s) 0).
Proof.
  revert s. induction pos as [|pos IH]; intros s Hle.
  - change (string_drop 0 s) with s. by destruct (find_from needle s 0).
  - destruct s as [|c s]; simpl in Hle; [lia|]. simpl.
    rewrite IH by lia. by destruct (find_from needle (string_drop pos s) 0).
Qed.

(** What [find_from] finds: an occurrence of [needle] at or after [pos],
    inside the string. *)
Lemma find_from_Some (needle s : string) (pos i : nat) :
  find_from needle s pos = Some i ->
  (pos <= i)%nat /\ (i + String.length needle <= String.length s)%nat /\
  String.prefix needle (string_drop i s) = true.
Proof.
  revert pos i. induction s as [|c s IH]; intros pos i.
  - destruct pos; cbn [find_from]; [|discriminate].
    destruct (String.prefix needle "") eqn:Hp; [|discriminate].
    intros [= <-]. apply prefix_length in Hp as Hl. simpl in Hl.
    split; [lia|]. split; [simpl; lia|done].
  - destruct pos as [|pos]; cbn [find_from].
    + destruct (String.prefix needle (String c s)) eqn:Hp.
      * intros [= <-]. apply prefix_length in Hp as Hl.
        split; [lia|]. split; [lia|done].
      * destruct (find_from needle s 0) as [j|] eqn:Hj; [|discriminate].
        intros [= <-]. apply IH in Hj as (? & ? & ?).
        split; [lia|]. split; [simpl; lia|done].
    + destruct (find_from needle s pos) as [j|] eqn:Hj; [|discriminate].
      intros [= <-]. apply IH in Hj as (? & ? & ?).
      split; [lia|]. split; [simpl; lia|done].
Qed.

(** No occurrence starts between [pos] and the index found. *)
Lemma find_from_first (needle s : string) (pos i j : nat) :
  find_from needle s pos = Some i -> (pos <= j < i)%nat ->
  String.prefix needle (string_drop j s) = false.
Proof.
  revert pos i j. induction s as [|c s IH]; intros pos i j.
  - destruct pos; cbn [find_from]; [|discriminate].
    destruct (String.prefix needle ""); [|discriminate]. intros [= <-]. lia.
  - destruct pos as [|pos]; cbn [find_from].
    + destruct (String.prefix needle (String c s)) eqn:Hp.
      * intros [= <-]. lia.
      * destruct (find_from needle s 0) as [k|] eqn:Hk; [|discriminate].
        intros [= <-] Hj. destruct j as [|j]; [done|].
        cbn [string_drop]. apply (IH 0%nat k); [done|lia].
    + destruct (find_from needle s pos) as [k|] eqn:Hk; [|discriminate].
      intros [= <-] Hj. destruct j as [|j]; [lia|].
      cbn [string_drop]. apply (IH pos k); [done|lia].
Qed.

(** When nothing is found, no occurrence starts at or after [pos]. *)
Lemma find_from_None (needle s : string) (pos j : nat) :
  find_from needle s pos = None -> (pos <= j <= String.length s)%nat ->
  String.prefix needle (string_drop j s) = false.
Proof.
  revert pos j. induction s as [|c s IH]; intros pos j.
  - destruct pos; cbn [find_from String.length].
    + destruct (String.prefix needle "") eqn:Hp; [discriminate|].
      intros _ Hj. by replace j with 0%nat by lia.
    + intros _ Hj. lia.
  - destruct pos as [|pos]; cbn [find_from String.length].
    + destruct (String.prefix needle (String c s)) eqn:Hp; [discriminate|].
      destruct (find_from needle s 0) as [k|] eqn:Hk; [discriminate|].
      intros _ Hj. destruct j as [|j]; [done|].
      cbn [string_drop]. apply (IH 0%nat); [done|lia].
    + destruct (find_from needle s pos) as [k|] eqn:Hk; [discriminate|].
      intros _ Hj. destruct j as [|j]; [lia|].
      cbn [string_drop]. apply (IH pos); [done|lia].
Qed.

(** A string that starts with [needle] has it at index [0]. *)
Lemma find_from_app (needle rest : string) :
  find_from needle (needle +:+ rest) 0 = Some 0%nat.
Proof.
  pose proof (prefix_app needle rest) as Hp.
  destruct (needle +:+ rest); cbn [find_from]; by rewrite Hp.
Qed.

(** ** [find] and [substr] on well-formed strings *)

Lemma well_formed_size (s : string) : well_formed s -> size s < SIZE_MODULUS.
Proof. unfold well_formed. pose proof npos_lt_modulus. lia. Qed.

(** [find] either returns [npos], or an index of the string at which the
    needle fits before the end. *)
Lemma find_cases (s needle : string) (pos : size_t) :
  well_formed s ->
  (find_from needle s (N.to_nat pos) = None /\ find s needle pos = npos) \/
  (exists i : nat,
      find_from needle s (N.to_nat pos) = Some i /\
      find s needle pos = N.of_nat i /\
      pos <= N.of_nat i /\ N.of_nat i + strlen needle <= size s).
Proof.
  intros Hwf. unfold find.
  destruct (find_from needle s (N.to_nat pos)) as [i|] eqn:Hi; [right|by left].
  exists i. apply find_from_Some in Hi as (? & ? & _).
  unfold strlen, size. repeat split; lia.
Qed.

Lemma find_found_lt_npos (s needle : string) (pos : size_t) (i : nat) :
  well_formed s -> N.of_nat i + strlen needle <= size s ->
  (N.of_nat i =? npos) = false.
Proof. unfold well_formed. intros. apply N.eqb_neq. lia. Qed.

Lemma substr_Ok (s : string) (pos n : size_t) :
  pos <= size s ->
  substr s pos n
  = Ok (string_take (N.to_nat (N.min n (size s - pos)))
                    (string_drop (N.to_nat pos) s)).
Proof.
  intros Hle. unfold substr.
  destruct (N.ltb_spec (size s) pos); [lia|done].
Qed.

(** [s.substr(pos)] is the suffix from [pos]. *)
Lemma substr_npos (s : string) (pos : size_t) :
  well_formed s -> pos <= size s ->
  substr s pos npos = Ok (string_drop (N.to_nat pos) s).
Proof.
  intros Hwf Hle. rewrite substr_Ok by done. f_equal.
  apply string_take_all. rewrite string_drop_length.
  unfold well_formed, size in *. lia.
Qed.

(** [s.substr(pos, n)] when the [n] characters are there. *)
Lemma substr_exact (s : string) (pos n : size_t) :
  pos + n <= size s ->
  substr s pos n = Ok (string_take (N.to_nat n) (string_drop (N.to_nat pos) s)).
Proof.
  intros Hle. rewrite substr_Ok by lia. do 2 f_equal. lia.
Qed.

(** ** Strings that carry a marker *)

Lemma prefix_split (needle s : string) :
  String.prefix needle s = true ->
  s = needle +:+ string_drop (String.length needle) s.
Proof.
  intros Hp. rewrite <- (string_take_drop (String.length needle) s) at 1.
  by rewrite (prefix_take needle s Hp).
Qed.

(** [find] misses exactly the strings that do not carry the marker. *)
Lemma find_from_None_iff (marker s : string) :
  find_from marker s 0 = None <-> ~ carries marker s.
Proof.
  split.
  - intros Hnone (before & after & ->).
    pose proof (find_from_None marker _ 0 (String.length before) Hnone) as Hp.
    rewrite string_drop_app, prefix_app in Hp.
    rewrite string_length_app in Hp. discriminate Hp. lia.
  - intros Hno. destruct (find_from marker s 0) as [i|] eqn:Hi; [|done].
    destruct Hno. apply find_from_Some in Hi as (_ & _ & Hp).
    exists (string_take i s), (string_drop (String.length marker) (string_drop i s)).
    by rewrite <- (prefix_split marker _ Hp), string_take_drop.
Qed.

Lemma find_npos_iff (marker s : string) :
  well_formed s -> find s marker 0 = npos <-> ~ carries marker s.
Proof.
  intros Hwf. rewrite <- find_from_None_iff.
  destruct (find_cases s marker 0 Hwf) as [[Hn Hf]|(i & Hs & Hf & _ & Hle)];
    change (N.to_nat 0) with 0%nat in *.
  - by rewrite Hn, Hf.
  - rewrite Hs, Hf. pose proof (find_found_lt_npos s marker 0 i Hwf Hle) as Hlt.
    apply N.eqb_neq in Hlt. split; [done|discriminate].
Qed.

(** ** Splitting on a separator *)

Lemma split_on_nonempty (sep : Ascii.ascii) (s : string) : split_on sep s <> [].
Proof.
  destruct s as [|c s]; simpl; [done|].
  destruct (Ascii.eqb c sep); [done|]. by destruct (split_on sep s).
Qed.

Lemma join_cons (sep : Ascii.ascii) (seg : string) (segs : list string) :
  segs <> [] -> join sep (seg :: segs) = seg +:+ String sep (join sep segs).
Proof. by destruct segs. Qed.

(** Joining the segments gives the string back: nothing is dropped. *)
Lemma join_split_on (sep : Ascii.ascii) (s : string) :
  join sep (split_on sep s) = s.
Proof.
  induction s as [|c s IH]; [done|]. cbn [split_on].
  pose proof (split_on_nonempty sep s) as Hne.
  destruct (Ascii.eqb_spec c sep) as [->|Hc].
  - by rewrite join_cons, IH.
  - destruct (split_on sep s) as [|seg segs]; [done|].
    destruct segs as [|seg' segs].
    + simpl in IH. by rewrite <- IH.
    + rewrite join_cons in IH |- * by done.
      by rewrite append_String, IH.
Qed.

(** No segment holds the separator. *)
Lemma split_on_no_sep (sep : Ascii.ascii) (s : string) :
  Forall (fun seg => occurs sep seg = false) (split_on sep s).
Proof.
  induction s as [|c s IH]; simpl; [by repeat constructor|].
  destruct (Ascii.eqb c sep) eqn:Hc; [by constructor|].
  destruct (split_on sep s) as [|seg segs]; [by repeat constructor; simpl; rewrite Hc|].
  inversion IH; subst. constructor; [|done]. simpl. by rewrite Hc.
Qed.

(** One step of the splitting in terms of [find_from]: the first segment
    ends at the first separator, the others come from the rest. *)
Lemma split_on_find (sep : Ascii.ascii) (t : string) :
  split_on sep t
  = match find_from (String sep EmptyString) t 0 with
    | Some e => string_take e t :: split_on sep (string_drop (S e) t)
    | None => [t]
    end.
Proof.
  induction t as [|c t IH]; [done|].
  cbn [find_from split_on String.prefix].
  replace (String.prefix "" t) with true by (by destruct t).
  destruct (Ascii.ascii_dec sep c) as [<-|Hne].
  - by rewrite Ascii.eqb_refl.
  - destruct (Ascii.eqb_spec c sep) as [->|_]; [done|].
    rewrite IH. by destruct (find_from (String sep "") t 0).
Qed.

(** Splitting what [join] built gives the segments back. *)
Lemma split_on_no_sep_one (sep : Ascii.ascii) (s : string) :
  occurs sep s = false -> split_on sep s = [s].
Proof.
  induction s as [|c s IH]; [done|]. simpl.
  intros [Hc Hs]%orb_false_elim. by rewrite Hc, IH.
Qed.

Lemma split_on_app_sep (sep : Ascii.ascii) (a b : string) :
  occurs sep a = false ->
  split_on sep (a +:+ String sep b) = a :: split_on sep b.
Proof.
  induction a as [|c a IH].
  - intros _. rewrite append_Empty. cbn [split_on]. by rewrite Ascii.eqb_refl.
  - cbn [occurs]. intros [Hc Ha]%orb_false_elim.
    rewrite append_String. cbn [split_on]. by rewrite Hc, IH.
Qed.

Lemma split_on_join (sep : Ascii.ascii) (segs : list string) :
  segs <> [] -> Forall (fun seg => occurs sep seg = false) segs ->
  split_on sep (join sep segs) = segs.
Proof.
  intros Hne Hno. induction Hno as [|seg segs Hseg Hsegs IH]; [done|].
  destruct segs as [|seg' segs].
  - by apply split_on_no_sep_one.
  - rewrite join_cons by done. rewrite split_on_app_sep by done.
    by rewrite IH.
Qed.

(** ** The loop over the type list *)

Lemma types_loop_npos (fuel : nat) (s : string) (acc : list string) :
  types_loop fuel s npos acc = Ok acc.
Proof. destruct fuel; cbn [types_loop]; by rewrite N.eqb_refl. Qed.

(** From an index of the string the loop ends without throwing, before the
    bound on its iterations, and appends the comma-separated segments of the
    rest of the string. *)
Lemma types_loop_spec (fuel : nat) (s : string) (pos : nat) (acc : list string) :
  well_formed s -> (pos <= String.length s)%nat ->
  (String.length s - pos < fuel)%nat ->
  types_loop fuel s (N.of_nat pos) acc
  = Ok (acc ++ split_on ","%char (string_drop pos s)).
Proof.
  intros Hwf. revert pos acc.
  induction fuel as [|fuel IH]; intros pos acc Hpos Hfuel; [lia|].
  cbn [types_loop].
  assert ((N.of_nat pos =? npos) = false) as ->.
  { apply N.eqb_neq. unfold well_formed, size in Hwf. lia. }
  pose proof (well_formed_size s Hwf) as Hsize.
  pose proof (find_from_drop "," s pos Hpos) as Hdrop.
  rewrite (split_on_find ","%char (string_drop pos s)).
  destruct (find_cases s "," (N.of_nat pos) Hwf)
    as [[Hnone Hfind]|(i & Hsome & Hfind & Hge & Hle)];
    rewrite Nat2N.id in *; rewrite Hfind.
  - rewrite N.eqb_refl. cbn [negb].
    rewrite substr_npos by (unfold size; done || lia). cbn [bind].
    rewrite types_loop_npos, Nat2N.id.
    rewrite Hnone in Hdrop.
    by destruct (find_from "," (string_drop pos s) 0).
  - rewrite (find_found_lt_npos s "," (N.of_nat pos) i) by done. cbn [negb].
    change (strlen ",") with 1 in Hle. unfold size in *.
    rewrite size_t_sub_small by lia.
    rewrite substr_exact by (unfold size; lia). cbn [bind].
    rewrite size_t_add_small by lia.
    replace (N.of_nat i + 1) with (N.of_nat (S i)) by lia.
    rewrite IH by lia.
    rewrite Hsome in Hdrop.
    destruct (find_from "," (string_drop pos s) 0) as [e|]; [|done].
    injection Hdrop as ->.
    rewrite string_drop_drop, <- assoc_L by apply _. cbn [app].
    rewrite Nat2N.id.
    replace (N.to_nat (N.of_nat (pos + e) - N.of_nat pos)) with e by lia.
    by replace (pos + S e)%nat with (S (pos + e)) by lia.
Qed.

(** ** [process_topic_info] *)

Lemma process_topic_info_not_found (s prefix : string) (t : Topic) :
  find_from prefix s 0 = None ->
  process_topic_info s prefix t = Ok (false, t).
Proof.
  intros Hnone. unfold process_topic_info, find.
  change (N.to_nat 0) with 0%nat. rewrite Hnone. by rewrite N.eqb_refl.
Qed.

(** What [process_topic_info] computes when the prefix is found, by the
    three ways the first ["&types="] of the whole string can lie: absent,
    at or after the start of the topic name, or before it. *)
Lemma process_topic_info_found (s prefix : string) (t : Topic) (p : nat) :
  well_formed s -> find_from prefix s 0 = Some p ->
  process_topic_info s prefix t
  = Ok (true,
        match find_from "&types=" s 0 with
        | None =>
            mkTopic (string_drop (name_start prefix p) s)
                    (types t ++ split_on ","%char (string_drop (name_start prefix p) s))
        | Some e =>
            mkTopic (if (name_start prefix p <=? e)%nat
                     then string_take (e - name_start prefix p)
                                      (string_drop (name_start prefix p) s)
                     else string_drop (name_start prefix p) s)
                    (types t ++ split_on ","%char (string_drop (e + 7) s))
        end).
Proof.
  intros Hwf Hp. unfold process_topic_info, name_start.
  pose proof (well_formed_size s Hwf) as Hsize.
  destruct (find_cases s prefix 0 Hwf)
    as [[Hnone _]|(p' & Hsome & -> & _ & Hple)];
    change (N.to_nat 0) with 0%nat in *; [congruence|].
  assert (p' = p) as -> by congruence. clear Hsome.
  rewrite (find_found_lt_npos s prefix 0 p) by done. cbn [negb].
  unfold size, strlen in *.
  rewrite size_t_add_small by lia.
  replace (N.of_nat p + N.of_nat (String.length prefix))
    with (N.of_nat (p + String.length prefix)) by lia.
  set (pos := (p + String.length prefix)%nat) in *.
  assert (pos <= String.length s)%nat as Hpos by (subst pos; lia).
  clearbody pos. clear Hple.
  destruct (find_cases s "&types=" 0 Hwf)
    as [[Hnone ->]|(e & Hsome & -> & _ & Hele)];
    change (N.to_nat 0) with 0%nat in *.
  - rewrite Hnone, N.eqb_refl. cbn [negb].
    rewrite substr_npos by (unfold size; done || lia). cbn [bind].
    rewrite Nat2N.id, types_loop_spec by (done || lia). done.
  - rewrite Hsome, (find_found_lt_npos s "&types=" 0 e) by done. cbn [negb].
    unfold size, strlen in Hele.
    change (N.of_nat (String.length "&types=")) with 7 in *.
    rewrite (size_t_add_small (N.of_nat e)) by lia.
    replace (N.of_nat e + 7) with (N.of_nat (e + 7)) by lia.
    destruct (Nat.leb_spec pos e) as [Hposle|Hposgt].
    + rewrite size_t_sub_small by lia.
      rewrite substr_exact by (unfold size; lia). cbn [bind].
      rewrite types_loop_spec by (done || lia).
      rewrite Nat2N.id.
      by replace (N.to_nat (N.of_nat e - N.of_nat pos)) with (e - pos)%nat by lia.
    + rewrite size_t_sub_wrapped by lia.
      rewrite substr_Ok by (unfold size; lia). cbn [bind].
      rewrite types_loop_spec by (done || lia).
      rewrite Nat2N.id, string_take_all; [done|].
      rewrite string_drop_length. unfold size. lia.
Qed.

(** [process_topic_info] never throws on a string a program can hold, and
    its loop ends before the bound on its iterations. *)
Lemma process_topic_info_total (s prefix : string) (t : Topic) :
  well_formed s -> exists r, process_topic_info s prefix t = Ok r.
Proof.
  intros Hwf. destruct (find_from prefix s 0) as [p|] eqn:Hp.
  - eexists. by apply process_topic_info_found.
  - eexists. by apply process_topic_info_not_found.
Qed.

(** A string made of the marker, a topic name, ["&types="] and a type
    list, whose first ["&types="] is that one: the topic name is decoded as
    written and the types are the comma-separated segments of the list. *)
Lemma process_topic_info_encoded (prefix topic_name type_list : string) :
  well_formed (prefix +:+ topic_name +:+ "&types=" +:+ type_list) ->
  find_from "&types=" (prefix +:+ topic_name +:+ "&types=" +:+ type_list) 0
  = Some (String.length prefix + String.length topic_name)%nat ->
  process_topic_info (prefix +:+ topic_name +:+ "&types=" +:+ type_list)
                     prefix Topic_default
  = Ok (true, mkTopic topic_name (split_on ","%char type_list)).
Proof.
  intros Hwf Hmarker.
  rewrite (process_topic_info_found _ prefix _ 0 Hwf) by apply find_from_app.
  rewrite Hmarker. unfold name_start. cbn [Nat.add types Topic_default app].
  destruct (Nat.leb_spec (String.length prefix)
              (String.length prefix + String.length topic_name)) as [_|]; [|lia].
  rewrite string_drop_app.
  replace (String.length prefix + String.length topic_name - String.length prefix)%nat
    with (String.length topic_name) by lia.
  rewrite string_take_app.
  replace (String.length prefix + String.length topic_name + 7)%nat
    with (String.length prefix + (String.length topic_name + 7))%nat by lia.
  rewrite <- string_drop_drop, string_drop_app.
  change 7%nat with (String.length "&types=").
  rewrite <- string_drop_drop, string_drop_app.
  by rewrite (string_drop_app "&types=" type_list).
Qed.

(** ** [operator==] is structural equality *)

Lemma vector_eq_spec {A : Type} (eq : A -> A -> bool) (l1 l2 : list A) :
  (forall x y, eq x y = true <-> x = y) ->
  vector_eq eq l1 l2 = true <-> l1 = l2.
Proof.
  intros Heq. revert l2.
  induction l1 as [|x l1 IH]; intros [|y l2]; simpl; try done.
  rewrite andb_true_iff, Heq, IH. split; [by intros [-> ->]|by intros [= -> ->]].
Qed.

Lemma Topic_eq_spec (this that : Topic) :
  Topic_eq this that = true <-> this = that.
Proof.
  unfold Topic_eq. rewrite andb_true_iff, String.eqb_eq.
  rewrite (vector_eq_spec String.eqb) by apply String.eqb_eq.
  destruct this, that; simpl. split; [by intros [-> ->]|by intros [= -> ->]].
Qed.

Lemma Node_eq_spec (this that : Node) :
  Node_eq this that = true <-> this = that.
Proof.
  unfold Node_eq. rewrite !andb_true_iff, !String.eqb_eq.
  rewrite !(vector_eq_spec Topic_eq) by apply Topic_eq_spec.
  destruct this, that; simpl.
  split; [by intros [[[-> ->] ->] ->]|by intros [= -> -> -> ->]].
Qed.

Lemma structurally_equal_eq (a b : Node) : structurally_equal a b <-> a = b.
Proof.
  destruct a, b. unfold structurally_equal. simpl.
  split; [by intros (-> & -> & -> & ->)|by intros [= -> -> -> ->]].
Qed.

Lemma differs_neq (a b : Node) : differs a b <-> a <> b.
Proof.
  split.
  - intros [Hd|[Hd|[Hd|Hd]]] ->; by apply Hd.
  - intros Hne. unfold differs.
    destruct (decide (name a = name b)); [|by left].
    destruct (decide (namespace_ a = namespace_ b)); [|by right; left].
    destruct (decide (publishers a = publishers b)); [|by right; right; left].
    destruct (decide (subscribers a = subscribers b)); [|by right; right; right].
    destruct Hne. by apply structurally_equal_eq.
Qed.

Lemma empty_size (s : string) : (size s =? 0) = true <-> s = EmptyString.
Proof.
  unfold size. rewrite N.eqb_eq. destruct s; [done|]. simpl. split; [lia|done].
Qed.

(** ** The table *)

Lemma std_map_items_perm (m : gmap string Node) :
  std_map_items m ≡ₚ map_to_list m.
Proof. apply merge_sort_Permutation. Qed.

(** The iteration visits the entries in the order of their keys. *)
Lemma std_map_items_sorted (m : gmap string Node) :
  Sorted key_le (std_map_items m).
Proof.
  apply Sorted_merge_sort. intros a b. unfold key_le.
  destruct (String.leb_total a.1 b.1) as [Hl|Hl]; [left|right]; by rewrite Hl.
Qed.

(** The iteration visits every identity once. *)
Lemma std_map_items_NoDup (m : gmap string Node) :
  NoDup (std_map_items m).*1.
Proof. rewrite std_map_items_perm. apply NoDup_fst_map_to_list. Qed.

Lemma elem_of_std_map_items (m : gmap string Node) (k : string) (v : Node) :
  (k, v) ∈ std_map_items m <-> m !! k = Some v.
Proof. rewrite std_map_items_perm. apply elem_of_map_to_list. Qed.

Lemma fill_in_order (items : list (string * Node)) (done_ rest : list Node) :
  length rest = length items ->
  (foldl (fun '(nodes, i) (it : string * Node) => (<[i := it.2]> nodes, S i))
         (done_ ++ rest, length done_) items).1
  = done_ ++ items.*2.
Proof.
  revert done_ rest. induction items as [|it items IH]; intros done_ rest Hlen.
  - destruct rest; [|done]. simpl. by rewrite !app_nil_r.
  - destruct rest as [|r rest]; [done|]. cbn [foldl fmap list_fmap].
    replace (<[length done_ := it.2]> (done_ ++ r :: rest))
      with ((done_ ++ [it.2]) ++ rest).
    + replace (S (length done_)) with (length (done_ ++ [it.2]))
        by (rewrite length_app; simpl; lia).
      rewrite IH by (simpl in Hlen; lia). by rewrite <- assoc_L by apply _.
    + rewrite insert_app_r_alt, Nat.sub_diag by lia.
      by rewrite <- assoc_L by apply _.
Qed.

(** [get_discovered_nodes] copies out the record of every entry, in the
    order of the iteration. *)
Lemma get_discovered_nodes_items (listener : NodeListener) :
  get_discovered_nodes listener = (std_map_items (discovered_nodes_ listener)).*2.
Proof.
  unfold get_discovered_nodes.
  apply (fill_in_order _ []). rewrite length_replicate.
  by rewrite std_map_items_perm, length_map_to_list.
Qed.

Lemma get_discovered_nodes_length (listener : NodeListener) :
  length (get_discovered_nodes listener) = base.size (discovered_nodes_ listener).
Proof.
  rewrite get_discovered_nodes_items, length_fmap.
  by rewrite std_map_items_perm, length_map_to_list.
Qed.

(** [m[k]; m[k] = v] stores [v] under [k], whatever was there. *)
Lemma map_subscript_assign (m : gmap string Node) (k : string) (v : Node) :
  <[k := v]> (map_subscript (map_subscript m k).2 k).2 = <[k := v]> m.
Proof.
  unfold map_subscript. destruct (m !! k) as [old|] eqn:Hk; simpl.
  - by rewrite Hk.
  - rewrite lookup_insert_eq. simpl. by rewrite insert_insert_eq.
Qed.

Lemma map_subscript_old (m : gmap string Node) (k : string) :
  (map_subscript m k).1 = default Node_default (m !! k).
Proof. unfold map_subscript. by destruct (m !! k). Qed.

(** ** Decoding a publication *)

Lemma find_not_found (s prefix : string) :
  find_from prefix s 0 = None -> find s prefix 0 = npos.
Proof. intros Hnone. unfold find. change (N.to_nat 0) with 0%nat. by rewrite Hnone. Qed.

(** The test and the [substr] that follow a successful [find] of a marker:
    the remainder after the marker. *)
Lemma substr_after_find (s prefix : string) (p : nat) :
  well_formed s -> find_from prefix s 0 = Some p ->
  find s prefix 0 = N.of_nat p /\
  (N.of_nat p =? npos) = false /\
  substr s (N.of_nat p +% strlen prefix) npos
  = Ok (string_drop (name_start prefix p) s).
Proof.
  intros Hwf Hp. pose proof (well_formed_size s Hwf) as Hsize.
  destruct (find_cases s prefix 0 Hwf)
    as [[Hnone _]|(p' & Hsome & Hfind & _ & Hple)];
    change (N.to_nat 0) with 0%nat in *; [congruence|].
  assert (p' = p) as -> by congruence.
  split; [done|]. split; [by apply (find_found_lt_npos s prefix 0)|].
  unfold strlen, size, name_start in *.
  rewrite size_t_add_small by lia.
  rewrite substr_npos by (unfold size; done || lia).
  do 2 f_equal. lia.
Qed.

(** The test of a marker and the [substr] after it, as [decode_step] writes
    them: the continuation gets the remainder after the first marker. *)
Lemma marker_step {A : Type} (s prefix : string) (k : string -> result A)
    (e : result A) :
  well_formed s ->
  (if negb (find s prefix 0 =? npos)
   then do x <- substr s (find s prefix 0 +% strlen prefix) npos; k x
   else e)
  = match find_from prefix s 0 with
    | Some p => k (string_drop (name_start prefix p) s)
    | None => e
    end.
Proof.
  intros Hwf. destruct (find_from prefix s 0) as [p|] eqn:Hf.
  - by destruct (substr_after_find s prefix p Hwf Hf) as (-> & -> & ->).
  - by rewrite (find_not_found s prefix Hf), N.eqb_refl.
Qed.

Section Decode.
Context {prefixes : NamespacePrefix}.

(** One iteration of the loop never throws on a string a program can
    hold. *)
Lemma decode_step_total (acc : string * Node) (s : string) :
  well_formed s -> exists acc', decode_step acc s = Ok acc'.
Proof.
  intros Hwf. unfold decode_step. destruct acc as [uuid node]. cbv zeta.
  rewrite (marker_step s dps_uuid_prefix) by done.
  destruct (find_from dps_uuid_prefix s 0); [by eexists|].
  rewrite (marker_step s dps_namespace_prefix) by done.
  destruct (find_from dps_namespace_prefix s 0); [by eexists|].
  rewrite (marker_step s dps_name_prefix) by done.
  destruct (find_from dps_name_prefix s 0); [by eexists|].
  destruct (process_topic_info_total s dps_publisher_prefix Topic_default Hwf)
    as [[[] publisher] ->]; cbn [bind]; [by eexists|].
  destruct (process_topic_info_total s dps_subscriber_prefix Topic_default Hwf)
    as [[[] subscriber] ->]; cbn [bind]; by eexists.
Qed.

Lemma decode_loop_total (topics : list string) (acc : string * Node) :
  Forall well_formed topics -> exists acc', decode_loop topics acc = Ok acc'.
Proof.
  intros Hwf. revert acc.
  induction Hwf as [|s topics Hs _ IH]; intros acc; [by eexists|].
  cbn [decode_loop].
  destruct (decode_step_total acc s Hs) as [acc' ->]. cbn [bind]. apply IH.
Qed.

(** The loop over the topics of a publication never throws. *)
Lemma decode_total (topics : list string) :
  Forall well_formed topics ->
  exists uuid node, decode topics = Ok (uuid, node).
Proof.
  intros Hwf.
  destruct (decode_loop_total topics (EmptyString, Node_default) Hwf)
    as [[uuid node] Hd].
  by exists uuid, node.
Qed.

(** A string with the identity marker sets the identity to the remainder
    after the marker and leaves the node as it is. *)
Lemma decode_step_uuid (acc : string * Node) (s : string) (p : nat) :
  well_formed s -> find_from dps_uuid_prefix s 0 = Some p ->
  decode_step acc s = Ok (string_drop (name_start dps_uuid_prefix p) s, acc.2).
Proof.
  intros Hwf Hp. unfold decode_step. destruct acc as [uuid node]. cbv zeta.
  by destruct (substr_after_find s dps_uuid_prefix p Hwf Hp) as (-> & -> & ->).
Qed.

(** A string without the identity marker leaves the identity as it is. *)
Lemma decode_step_no_uuid (acc acc' : string * Node) (s : string) :
  find_from dps_uuid_prefix s 0 = None ->
  decode_step acc s = Ok acc' -> acc'.1 = acc.1.
Proof.
  intros Hnone. unfold decode_step. destruct acc as [uuid node]. cbv zeta.
  rewrite (find_not_found s dps_uuid_prefix Hnone), N.eqb_refl. cbn [negb].
  repeat match goal with
  | |- context [if ?b then _ else _] => destruct b
  | |- context [bind ?r _] => destruct r as [[]|]; cbn [bind]
  end; by intros [= <-].
Qed.

Lemma decode_loop_no_uuid (topics : list string) (acc acc' : string * Node) :
  Forall (fun s => find_from dps_uuid_prefix s 0 = None) topics ->
  decode_loop topics acc = Ok acc' -> acc'.1 = acc.1.
Proof.
  intros Hno. revert acc.
  induction Hno as [|s topics Hs _ IH]; intros acc; cbn [decode_loop].
  - by intros [= <-].
  - destruct (decode_step acc s) as [acc1|] eqn:Hstep; cbn [bind]; [|done].
    intros Hloop. apply IH in Hloop.
    apply (decode_step_no_uuid _ _ _ Hs) in Hstep. congruence.
Qed.

(** What [onPublication] does with the decoded identity and node. *)
Lemma onPublication_decoded (ret : rmw_ret_t) (listener : NodeListener)
    (topics : list string) (uuid : string) (node : Node) :
  decode topics = Ok (uuid, node) ->
  onPublication ret listener topics
  = Ok (if decide (uuid = EmptyString) then (listener, [])
        else
          (mkNodeListener (<[uuid := node]> (discovered_nodes_ listener))
                          (graph_guard_condition_ listener),
           if decide (default Node_default (discovered_nodes_ listener !! uuid)
                      = node)
           then []
           else trigger_guard_condition (graph_guard_condition_ listener)
                :: if decide (ret = RMW_RET_OK) then []
                   else [log_error "rmw_dps_cpp"
                                   "failed to trigger guard condition"])).
Proof.
  intros Hd. unfold onPublication. rewrite Hd. cbn [bind].
  destruct (decide (uuid = EmptyString)) as [->|Hne]; [done|].
  assert ((size uuid =? 0) = false) as ->.
  { apply not_true_is_false. by rewrite empty_size. }
  cbn [negb].
  pose proof (map_subscript_old (discovered_nodes_ listener) uuid) as Hold.
  pose proof (map_subscript_assign (discovered_nodes_ listener) uuid node)
    as Hnew.
  destruct (map_subscript (discovered_nodes_ listener) uuid)
    as [old_node nodes]. simpl in Hold, Hnew. subst old_node.
  rewrite Hnew.
  destruct (decide (default Node_default (discovered_nodes_ listener !! uuid)
                    = node)) as [Heq|Hneq].
  - apply Node_eq_spec in Heq. by rewrite Heq.
  - rewrite <- Node_eq_spec in Hneq. apply not_true_is_false in Hneq.
    rewrite Hneq. cbn [negb].
    destruct (decide (ret = RMW_RET_OK)) as [->|Hret]; [done|].
    apply Z.eqb_neq in Hret. by rewrite Hret.
Qed.

(** X12. [onPublication] returns to its caller: nothing in it throws, and the
    loop over the types ends within its bound. *)
Lemma onPublication_total (ret : rmw_ret_t) (listener : NodeListener)
    (topics : list string) :
  Forall well_formed topics ->
  exists listener' evs,
    onPublication ret listener topics = Ok (listener', evs).
Proof.
  intros Hwf. destruct (decode_total topics Hwf) as (uuid & node & Hd).
  rewrite (onPublication_decoded _ _ _ _ _ Hd).
  destruct (decide (uuid = EmptyString)); by eexists _, _.
Qed.

(** Without the identity marker in any string, the decoded identity is
    empty. *)
Lemma decode_no_identity (topics : list string) (uuid : string) (node : Node) :
  Forall (fun s => ~ carries dps_uuid_prefix s) topics ->
  decode topics = Ok (uuid, node) -> uuid = EmptyString.
Proof.
  intros Hno Hd.
  assert (Forall (fun s => find_from dps_uuid_prefix s 0 = None) topics)
    as Hnone.
  { eapply Forall_impl; [exact Hno|]. intros s Hs. by apply find_from_None_iff. }
  by apply (decode_loop_no_uuid _ _ _ Hnone) in Hd.
Qed.

(** An announcement made of the identity marker and an identity alone
    decodes to that identity and the default record. *)
Lemma decode_identity_only (u : string) :
  well_formed (dps_uuid_prefix +:+ u) ->
  decode [dps_uuid_prefix +:+ u] = Ok (u, Node_default).
Proof.
  intros Hwf. unfold decode. cbn [decode_loop].
  rewrite (decode_step_uuid _ _ 0 Hwf) by apply find_from_app.
  cbn [bind decode_loop snd]. unfold name_start. cbn [Nat.add].
  by rewrite string_drop_app.
Qed.

End Decode.

(** ** Counting publishers and subscribers *)

Lemma count_if_named (topic_name : string) (descriptors : list Topic) :
  count_if (fun d => String.eqb (topic d) topic_name) descriptors
  = N.of_nat (length (named topic_name descriptors)).
Proof.
  unfold count_if, named. do 2 f_equal. apply list_filter_iff. intros d.
  by rewrite Is_true_true, String.eqb_eq.
Qed.

Lemma named_app (topic_name : string) (ds1 ds2 : list Topic) :
  named topic_name (ds1 ++ ds2) = named topic_name ds1 ++ named topic_name ds2.
Proof. apply filter_app. Qed.

Section Count.
Variable field : Node -> list Topic.
Variable topic_name : string.

(** The loop of [count_publishers] and [count_subscribers] over the
    entries [items], from the count [acc]. *)
Lemma count_loop (items : list (string * Node)) (acc : size_t) :
  acc < SIZE_MODULUS ->
  foldl (fun count (it : string * Node) =>
           count +% count_if (fun d => String.eqb (topic d) topic_name)
                             (field it.2))
        acc items
  = (acc + N.of_nat (length (named topic_name (mjoin (field <$> items.*2)))))
    mod SIZE_MODULUS.
Proof.
  revert acc. induction items as [|it items IH]; intros acc Hacc.
  - simpl. rewrite N.add_0_r. symmetry. by apply N.mod_small.
  - cbn [foldl]. rewrite IH by (by apply N.mod_upper_bound).
    rewrite count_if_named. rewrite !fmap_cons.
    change (mjoin (field it.2 :: (field <$> items.*2)))
      with (field it.2 ++ mjoin (field <$> items.*2)).
    rewrite named_app, length_app.
    unfold size_t_add. rewrite N.Div0.add_mod_idemp_l. f_equal. lia.
Qed.

Lemma count_loop_items (m : gmap string Node) :
  foldl (fun count (it : string * Node) =>
           count +% count_if (fun d => String.eqb (topic d) topic_name)
                             (field it.2))
        0 (std_map_items m)
  = N.of_nat (length (named topic_name (mjoin (field <$> (map_to_list m).*2))))
    mod SIZE_MODULUS.
Proof.
  rewrite count_loop by done. rewrite N.add_0_l.
  unfold named. by rewrite (std_map_items_perm m).
Qed.

Lemma named_none (m : gmap string Node) :
  (forall uuid node d,
     m !! uuid = Some node -> d ∈ field node -> topic d <> topic_name) ->
  named topic_name (mjoin (field <$> (map_to_list m).*2)) = [].
Proof.
  intros Hnone. apply elem_of_nil_inv. intros d Hd.
  apply list_elem_of_filter in Hd as [Hname Hd].
  apply list_elem_of_join in Hd as (ds & Hd & Hds).
  apply list_elem_of_fmap in Hds as (node & -> & Hnode).
  apply list_elem_of_fmap in Hnode as ([uuid node'] & -> & Hin).
  apply elem_of_map_to_list in Hin. by apply (Hnone uuid node' d).
Qed.

End Count.

(** * The claims of the specification *)

(** ** A descriptor without type list *)

(** C1 (the code departs from the claim). The claim: when the remainder
    after the marker holds no ["&types="], the topic name is the whole
    remainder and the type list is empty. The code, at ["_pub_=chatter"]:
    the [else] branch of line 184 sets the topic name and leaves [pos] at
    the start of the name, so the loop of line 187 runs over the name and
    the type list is [["chatter"]], not empty. *)
Example process_topic_info_no_type_marker :
  process_topic_info "_pub_=chatter" "_pub_=" Topic_default
  = Ok (true, mkTopic "chatter" ["chatter"]).
Proof. vm_compute. reflexivity. Qed.

(** X1. Whenever the marker is found, the loop runs at least once: the type
    list that [process_topic_info] returns is never empty. *)
Lemma process_topic_info_types_nonempty (s prefix : string) (p : nat) :
  well_formed s -> find_from prefix s 0 = Some p ->
  exists topic_name tys,
    process_topic_info s prefix Topic_default = Ok (true, mkTopic topic_name tys) /\
    tys <> [].
Proof.
  intros Hwf Hp. rewrite (process_topic_info_found s prefix _ p Hwf Hp).
  destruct (find_from "&types=" s 0) as [e|]; eexists _, _;
    (split; [reflexivity|]); cbn [types Topic_default app];
    apply split_on_nonempty.
Qed.

Lemma process_topic_info_types_nonempty_at_chatter :
  exists topic_name tys,
    process_topic_info "_pub_=chatter" "_pub_=" Topic_default
    = Ok (true, mkTopic topic_name tys) /\ tys <> [].
Proof.
  apply (process_topic_info_types_nonempty "_pub_=chatter" "_pub_=" 0);
    reflexivity.
Defined.

(** X2. Without any ["&types="] in the string, the topic name is the
    remainder after the marker, and the type list is the comma-separated
    segments of that same remainder. *)
Lemma process_topic_info_without_types (s prefix : string) (p : nat) :
  well_formed s -> find_from prefix s 0 = Some p ->
  find_from "&types=" s 0 = None ->
  process_topic_info s prefix Topic_default
  = Ok (true, mkTopic (string_drop (name_start prefix p) s)
                      (split_on ","%char (string_drop (name_start prefix p) s))).
Proof.
  intros Hwf Hp Hnone.
  by rewrite (process_topic_info_found s prefix _ p Hwf Hp), Hnone.
Qed.

Lemma process_topic_info_without_types_at_list :
  process_topic_info "_sub_=a,b" "_sub_=" Topic_default
  = Ok (true, mkTopic "a,b" ["a"; "b"]).
Proof.
  apply (process_topic_info_without_types "_sub_=a,b" "_sub_=" 0); reflexivity.
Defined.

(** ** Announcements and the change signal *)

(** The first scenario of the specification: the identity and the record
    that the talker's announcement decodes to. *)
Example decode_talker :
  decode (prefixes := scenario_prefixes) talker_topics
  = Ok ("abc123", talker_node).
Proof. vm_compute. reflexivity. Qed.

(** C2. An announcement decodes to an identity and a record. When it
    carries an identity (the code's test, line 123: the decoded [uuid] is
    not empty), [onPublication] invokes the guard condition exactly once if
    the decoded record differs, in one of its four fields, from the record
    stored for that identity (the default record when none is stored), and
    does not invoke it if the two are structurally equal. *)
Theorem onPublication_signals_iff_differs {prefixes : NamespacePrefix}
    (ret : rmw_ret_t) (listener : NodeListener) (topics : list string) :
  Forall well_formed topics ->
  exists uuid node,
    decode topics = Ok (uuid, node) /\
    (uuid <> EmptyString ->
     exists listener' evs,
       onPublication ret listener topics = Ok (listener', evs) /\
       (differs (default Node_default (discovered_nodes_ listener !! uuid)) node ->
        triggers evs = 1%nat /\
        trigger_guard_condition (graph_guard_condition_ listener) ∈ evs) /\
       (structurally_equal
          (default Node_default (discovered_nodes_ listener !! uuid)) node ->
        triggers evs = 0%nat)).
Proof.
  intros Hwf. destruct (decode_total topics Hwf) as (uuid & node & Hd).
  exists uuid, node. split; [done|]. intros Hne.
  rewrite (onPublication_decoded _ _ _ _ _ Hd).
  destruct (decide (uuid = EmptyString)); [done|].
  eexists _, _. split; [reflexivity|].
  rewrite differs_neq, structurally_equal_eq.
  destruct (decide (default Node_default (discovered_nodes_ listener !! uuid)
                    = node)) as [Heq|Hneq].
  - split; [by intros []|done].
  - split; [intros _|by intros ?].
    split; [by destruct (decide (ret = RMW_RET_OK))|apply list_elem_of_here].
Qed.

Lemma onPublication_signals_iff_differs_witness :
  exists listener' evs,
    onPublication (prefixes := scenario_prefixes) RMW_RET_OK new_listener
      talker_topics = Ok (listener', evs) /\
    triggers evs = 1%nat /\
    trigger_guard_condition (graph_guard_condition_ new_listener) ∈ evs.
Proof.
  destruct (onPublication_signals_iff_differs (prefixes := scenario_prefixes)
              RMW_RET_OK new_listener talker_topics)
    as (uuid & node & Hd & Hsignal).
  { repeat constructor. }
  assert (decode (prefixes := scenario_prefixes) talker_topics
          = Ok ("abc123", talker_node)) as Hdecoded by reflexivity.
  rewrite Hdecoded in Hd. injection Hd as <- <-.
  destruct Hsignal as (listener' & evs & Hcall & Hdiffers & _); [discriminate|].
  exists listener', evs. split; [exact Hcall|].
  apply Hdiffers. left. vm_compute. discriminate.
Defined.

(** The two cases at the talker's announcement: a listener that has not
    seen the talker invokes the guard condition once, a listener that holds
    the same record does not. *)
Example scenario_talker_changed_and_unchanged :
  onPublication (prefixes := scenario_prefixes) RMW_RET_OK new_listener
    talker_topics
  = Ok (talker_listener, [trigger_guard_condition 1]) /\
  onPublication (prefixes := scenario_prefixes) RMW_RET_OK talker_listener
    talker_topics
  = Ok (talker_listener, []).
Proof. split; vm_compute; reflexivity. Qed.

(** C3. Delivering the same announcement twice for an identity: both calls
    return, the first invokes the guard condition at most once and leaves
    the decoded record stored under the identity, and the second, which
    decodes the same record and finds it stored, invokes nothing and leaves
    the listener as it is. *)
Theorem onPublication_twice {prefixes : NamespacePrefix}
    (ret1 ret2 : rmw_ret_t) (listener : NodeListener) (topics : list string) :
  Forall well_formed topics ->
  exists uuid node,
    decode topics = Ok (uuid, node) /\
    (uuid <> EmptyString ->
     exists listener1 evs1 listener2 evs2,
       onPublication ret1 listener topics = Ok (listener1, evs1) /\
       onPublication ret2 listener1 topics = Ok (listener2, evs2) /\
       (triggers evs1 <= 1)%nat /\
       discovered_nodes_ listener1 !! uuid = Some node /\
       triggers evs2 = 0%nat /\ evs2 = [] /\ listener2 = listener1).
Proof.
  intros Hwf. destruct (decode_total topics Hwf) as (uuid & node & Hd).
  exists uuid, node. split; [done|]. intros Hne.
  rewrite (onPublication_decoded _ _ _ _ _ Hd).
  destruct (decide (uuid = EmptyString)); [done|].
  eexists _, _, _, _. split; [reflexivity|].
  rewrite (onPublication_decoded _ _ _ _ _ Hd).
  destruct (decide (uuid = EmptyString)); [done|].
  cbn [discovered_nodes_ graph_guard_condition_].
  rewrite lookup_insert_eq. cbn [from_option]. unfold id.
  destruct (decide (node = node)); [|done].
  rewrite insert_insert_eq.
  split; [reflexivity|].
  split; [|done].
  repeat case_decide; unfold triggers; simpl; lia.
Qed.

Lemma onPublication_twice_witness :
  exists listener1 evs1 listener2 evs2,
    onPublication (prefixes := scenario_prefixes) RMW_RET_OK new_listener
      ["_did_=u1"; "_name_=a"] = Ok (listener1, evs1) /\
    onPublication (prefixes := scenario_prefixes) RMW_RET_OK listener1
      ["_did_=u1"; "_name_=a"] = Ok (listener2, evs2) /\
    (triggers evs1 <= 1)%nat /\
    discovered_nodes_ listener1 !! "u1" = Some (mkNode "a" "/" [] []) /\
    triggers evs2 = 0%nat /\ evs2 = [] /\ listener2 = listener1.
Proof.
  destruct (onPublication_twice (prefixes := scenario_prefixes)
              RMW_RET_OK RMW_RET_OK new_listener ["_did_=u1"; "_name_=a"])
    as (uuid & node & Hd & Htwice).
  { repeat constructor. }
  assert (decode (prefixes := scenario_prefixes) ["_did_=u1"; "_name_=a"]
          = Ok ("u1", mkNode "a" "/" [] [])) as Hdecoded by reflexivity.
  rewrite Hdecoded in Hd. injection Hd as <- <-.
  apply Htwice. discriminate.
Defined.

(** The fourth scenario of the specification: the announcement [{name: "a"}]
    twice. The first call invokes the guard condition once, the second does
    not. *)
Example scenario_same_announcement_twice :
  exists listener1,
    onPublication (prefixes := scenario_prefixes) RMW_RET_OK new_listener
      ["_did_=u1"; "_name_=a"]
    = Ok (listener1, [trigger_guard_condition 1]) /\
    onPublication (prefixes := scenario_prefixes) RMW_RET_OK listener1
      ["_did_=u1"; "_name_=a"]
    = Ok (listener1, []).
Proof. eexists. split; vm_compute; reflexivity. Qed.

(** ** The type list of a descriptor *)

(** C4. The string ["_pub_=chatter&types=TypeA,"] decodes to the topic
    [chatter] with the two types ["TypeA"] and [""]. In general, for a
    string made of the marker, a topic name, ["&types="] and a type list,
    whose first ["&types="] is that one, the decoded types are the
    comma-separated segments of the type list: joined by commas they give
    the type list back, and none of them holds a comma, so every segment,
    the empty ones too, is there in the order of the string. *)
Theorem process_topic_info_comma_split :
  process_topic_info "_pub_=chatter&types=TypeA," "_pub_=" Topic_default
  = Ok (true, mkTopic "chatter" ["TypeA"; ""]) /\
  forall prefix topic_name type_list : string,
    well_formed (prefix +:+ topic_name +:+ "&types=" +:+ type_list) ->
    find_from "&types=" (prefix +:+ topic_name +:+ "&types=" +:+ type_list) 0
    = Some (String.length prefix + String.length topic_name)%nat ->
    process_topic_info (prefix +:+ topic_name +:+ "&types=" +:+ type_list)
                       prefix Topic_default
    = Ok (true, mkTopic topic_name (split_on ","%char type_list)) /\
    join ","%char (split_on ","%char type_list) = type_list /\
    Forall (fun seg => occurs ","%char seg = false) (split_on ","%char type_list).
Proof.
  split; [by vm_compute|].
  intros prefix topic_name type_list Hwf Hmarker.
  split; [by apply process_topic_info_encoded|].
  split; [apply join_split_on|apply split_on_no_sep].
Qed.

Lemma process_topic_info_comma_split_witness :
  process_topic_info "_sub_=scan&types=A,,B" "_sub_=" Topic_default
  = Ok (true, mkTopic "scan" ["A"; ""; "B"]) /\
  join ","%char (split_on ","%char "A,,B") = "A,,B" /\
  Forall (fun seg => occurs ","%char seg = false) (split_on ","%char "A,,B").
Proof.
  apply (proj2 process_topic_info_comma_split "_sub_=" "scan" "A,,B");
    reflexivity.
Defined.

(** ** Announcements without identity *)

(** C5. An announcement none of whose strings carries the identity marker
    has no effect: [onPublication] returns, the table is the one before, the
    guard condition is not invoked (nothing at all is called), and
    [get_discovered_nodes] returns what it returned before. *)
Theorem onPublication_without_identity {prefixes : NamespacePrefix}
    (ret : rmw_ret_t) (listener : NodeListener) (topics : list string) :
  Forall well_formed topics ->
  Forall (fun s => ~ carries dps_uuid_prefix s) topics ->
  exists listener' evs,
    onPublication ret listener topics = Ok (listener', evs) /\
    discovered_nodes_ listener' = discovered_nodes_ listener /\
    triggers evs = 0%nat /\ evs = [] /\
    get_discovered_nodes listener' = get_discovered_nodes listener.
Proof.
  intros Hwf Hno. destruct (decode_total topics Hwf) as (uuid & node & Hd).
  pose proof (decode_no_identity topics uuid node Hno Hd) as ->.
  exists listener, []. rewrite (onPublication_decoded _ _ _ _ _ Hd).
  by destruct (decide (EmptyString = EmptyString)).
Qed.

Lemma onPublication_without_identity_witness :
  exists listener' evs,
    onPublication (prefixes := scenario_prefixes) RMW_RET_OK
      talker_listener ["_nsp_=/other"; "_name_=listener"; "_sub_=chatter&types=T"]
    = Ok (listener', evs) /\
    discovered_nodes_ listener' = discovered_nodes_ talker_listener /\
    triggers evs = 0%nat /\ evs = [] /\
    get_discovered_nodes listener' = get_discovered_nodes talker_listener.
Proof.
  apply (onPublication_without_identity (prefixes := scenario_prefixes)).
  - repeat constructor.
  - repeat constructor; apply find_from_None_iff; reflexivity.
Defined.

(** ** The table of discovered nodes *)

(** C6. [count_publishers] returns the number of publisher descriptors,
    over all the records of the table, whose topic name is [topic_name] (the
    type lists play no part): that number as a [size_t], which is the number
    itself whenever a [size_t] can hold it, and [0] when no record publishes
    the topic. [count_subscribers] does the same over the subscriber
    descriptors. *)
Theorem count_matching (listener : NodeListener) (topic_name : string) :
  count_publishers listener topic_name
  = N.of_nat (length (named topic_name (published (discovered_nodes_ listener))))
    mod SIZE_MODULUS /\
  (N.of_nat (length (named topic_name (published (discovered_nodes_ listener))))
   < SIZE_MODULUS ->
   count_publishers listener topic_name
   = N.of_nat (length (named topic_name
                         (published (discovered_nodes_ listener))))) /\
  ((forall uuid node d,
      discovered_nodes_ listener !! uuid = Some node ->
      d ∈ publishers node -> topic d <> topic_name) ->
   count_publishers listener topic_name = 0) /\
  count_subscribers listener topic_name
  = N.of_nat (length (named topic_name (subscribed (discovered_nodes_ listener))))
    mod SIZE_MODULUS /\
  (N.of_nat (length (named topic_name (subscribed (discovered_nodes_ listener))))
   < SIZE_MODULUS ->
   count_subscribers listener topic_name
   = N.of_nat (length (named topic_name
                         (subscribed (discovered_nodes_ listener))))) /\
  ((forall uuid node d,
      discovered_nodes_ listener !! uuid = Some node ->
      d ∈ subscribers node -> topic d <> topic_name) ->
   count_subscribers listener topic_name = 0).
Proof.
  unfold count_publishers, count_subscribers, published, subscribed.
  rewrite !count_loop_items.
  split; [done|]. split; [apply N.mod_small|]. split.
  { intros Hnone. by rewrite (named_none publishers topic_name _ Hnone). }
  split; [done|]. split; [apply N.mod_small|].
  intros Hnone. by rewrite (named_none subscribers topic_name _ Hnone).
Qed.

Lemma count_matching_witness :
  count_publishers two_talkers "chatter" = 3 /\
  count_publishers two_talkers "scan" = 0 /\
  count_subscribers two_talkers "chatter" = 1.
Proof.
  pose proof (count_matching two_talkers "chatter")
    as (_ & Hpub & _ & _ & Hsub & _).
  pose proof (count_matching two_talkers "scan") as (_ & _ & Hnone & _).
  split; [apply Hpub; vm_compute; reflexivity|].
  split; [|apply Hsub; vm_compute; reflexivity].
  apply Hnone. intros uuid node d Hnode.
  unfold two_talkers in Hnode. cbn [discovered_nodes_] in Hnode.
  destruct (decide (uuid = "n2")) as [->|Hn2].
  - rewrite lookup_insert_eq in Hnode. injection Hnode as <-.
    cbn [publishers]. revert d. apply Forall_forall.
    repeat constructor; discriminate.
  - rewrite lookup_insert_ne in Hnode by done.
    apply lookup_singleton_Some in Hnode as [_ <-].
    cbn [publishers talker_node]. revert d. apply Forall_forall.
    repeat constructor; discriminate.
Defined.

(** C7. The table holds one record per identity: the iteration over it
    visits no identity twice, before and after the call. An announcement
    that carries the identity [uuid] stores exactly the decoded record under
    [uuid], whatever was stored before, and leaves the other identities
    alone: the table after is the table before with the record of [uuid]
    replaced. *)
Theorem onPublication_replaces_record {prefixes : NamespacePrefix}
    (ret : rmw_ret_t) (listener : NodeListener) (topics : list string) :
  Forall well_formed topics ->
  exists uuid node,
    decode topics = Ok (uuid, node) /\
    (uuid <> EmptyString ->
     exists listener' evs,
       onPublication ret listener topics = Ok (listener', evs) /\
       discovered_nodes_ listener'
       = <[uuid := node]> (discovered_nodes_ listener) /\
       discovered_nodes_ listener' !! uuid = Some node /\
       (forall other, other <> uuid ->
          discovered_nodes_ listener' !! other
          = discovered_nodes_ listener !! other) /\
       NoDup (std_map_items (discovered_nodes_ listener)).*1 /\
       NoDup (std_map_items (discovered_nodes_ listener')).*1 /\
       (forall stored,
          (uuid, stored) ∈ std_map_items (discovered_nodes_ listener') ->
          stored = node)).
Proof.
  intros Hwf. destruct (decode_total topics Hwf) as (uuid & node & Hd).
  exists uuid, node. split; [done|]. intros Hne.
  rewrite (onPublication_decoded _ _ _ _ _ Hd).
  destruct (decide (uuid = EmptyString)); [done|].
  eexists _, _. split; [reflexivity|]. cbn [discovered_nodes_].
  split; [done|]. split; [apply lookup_insert_eq|].
  split; [intros other Hother; by apply lookup_insert_ne|].
  split; [apply std_map_items_NoDup|].
  split; [apply std_map_items_NoDup|].
  intros stored Hin. apply elem_of_std_map_items in Hin.
  rewrite lookup_insert_eq in Hin. congruence.
Qed.

Lemma onPublication_replaces_record_witness :
  exists listener' evs,
    onPublication (prefixes := scenario_prefixes) RMW_RET_OK talker_listener
      ["_did_=abc123"; "_sub_=scan&types=L"] = Ok (listener', evs) /\
    discovered_nodes_ listener'
    = <["abc123" := mkNode "" "/" [] [mkTopic "scan" ["L"]]]>
        (discovered_nodes_ talker_listener) /\
    discovered_nodes_ listener' !! "abc123"
    = Some (mkNode "" "/" [] [mkTopic "scan" ["L"]]) /\
    (forall other, other <> "abc123" ->
       discovered_nodes_ listener' !! other
       = discovered_nodes_ talker_listener !! other) /\
    NoDup (std_map_items (discovered_nodes_ talker_listener)).*1 /\
    NoDup (std_map_items (discovered_nodes_ listener')).*1 /\
    (forall stored,
       ("abc123", stored) ∈ std_map_items (discovered_nodes_ listener') ->
       stored = mkNode "" "/" [] [mkTopic "scan" ["L"]]).
Proof.
  destruct (onPublication_replaces_record (prefixes := scenario_prefixes)
              RMW_RET_OK talker_listener ["_did_=abc123"; "_sub_=scan&types=L"])
    as (uuid & node & Hd & Hreplace).
  { repeat constructor. }
  assert (decode (prefixes := scenario_prefixes)
            ["_did_=abc123"; "_sub_=scan&types=L"]
          = Ok ("abc123", mkNode "" "/" [] [mkTopic "scan" ["L"]]))
    as Hdecoded by reflexivity.
  rewrite Hdecoded in Hd. injection Hd as <- <-.
  apply Hreplace. discriminate.
Defined.

(** A later announcement of the talker's identity replaces the whole record:
    the name, the namespace and the publisher of before are gone. *)
Example scenario_record_replaced :
  onPublication (prefixes := scenario_prefixes) RMW_RET_OK talker_listener
    ["_did_=abc123"; "_sub_=scan&types=L"]
  = Ok (mkNodeListener {["abc123" := mkNode "" "/" [] [mkTopic "scan" ["L"]]]} 1,
        [trigger_guard_condition 1]).
Proof. vm_compute. reflexivity. Qed.

(** ** A guard condition that fails *)

(** C8. When [rmw_trigger_guard_condition] does not return [RMW_RET_OK],
    [onPublication] still returns to its caller (it returns nothing, and
    nothing is thrown); the listener after the call is the one that a
    successful trigger leaves, with the decoded record stored under its
    identity; and the failure shows in the error log only: the calls made
    are the trigger followed by the log line, or none at all when the
    record did not change. *)
Theorem onPublication_trigger_failure {prefixes : NamespacePrefix}
    (ret : rmw_ret_t) (listener : NodeListener) (topics : list string) :
  ret <> RMW_RET_OK -> Forall well_formed topics ->
  exists listener' evs,
    onPublication ret listener topics = Ok (listener', evs) /\
    (exists evs_ok,
       onPublication RMW_RET_OK listener topics = Ok (listener', evs_ok) /\
       triggers evs_ok = triggers evs) /\
    (forall uuid node,
       decode topics = Ok (uuid, node) -> uuid <> EmptyString ->
       discovered_nodes_ listener' !! uuid = Some node) /\
    (evs = [trigger_guard_condition (graph_guard_condition_ listener);
            log_error "rmw_dps_cpp" "failed to trigger guard condition"] \/
     evs = []).
Proof.
  intros Hret Hwf. destruct (decode_total topics Hwf) as (uuid & node & Hd).
  rewrite !(onPublication_decoded _ _ _ _ _ Hd).
  destruct (decide (uuid = EmptyString)) as [->|Hne].
  - eexists _, _. split; [reflexivity|]. split; [by eexists|].
    split; [|by right]. intros uuid' node' Hd'. congruence.
  - eexists _, _. split; [reflexivity|].
    destruct (decide (ret = RMW_RET_OK)); [done|].
    destruct (decide (RMW_RET_OK = RMW_RET_OK)); [|done].
    split; [eexists; split; [reflexivity|by case_decide]|].
    split; [|case_decide; [by right|by left]].
    intros uuid' node' Hd' _. cbn [discovered_nodes_].
    assert (uuid' = uuid /\ node' = node) as [-> ->]
      by (split; congruence).
    apply lookup_insert_eq.
Qed.

Lemma onPublication_trigger_failure_witness :
  exists listener' evs,
    onPublication (prefixes := scenario_prefixes) 1%Z new_listener talker_topics
    = Ok (listener', evs) /\
    (exists evs_ok,
       onPublication (prefixes := scenario_prefixes) RMW_RET_OK new_listener
         talker_topics = Ok (listener', evs_ok) /\
       triggers evs_ok = triggers evs) /\
    (forall uuid node,
       decode (prefixes := scenario_prefixes) talker_topics = Ok (uuid, node) ->
       uuid <> EmptyString ->
       discovered_nodes_ listener' !! uuid = Some node) /\
    (evs = [trigger_guard_condition (graph_guard_condition_ new_listener);
            log_error "rmw_dps_cpp" "failed to trigger guard condition"] \/
     evs = []).
Proof.
  apply (onPublication_trigger_failure (prefixes := scenario_prefixes)
           1%Z new_listener talker_topics).
  - discriminate.
  - repeat constructor.
Defined.

(** The failing trigger at the talker's announcement: the record is stored
    and the trace is the trigger and the log line. *)
Example scenario_trigger_fails :
  onPublication (prefixes := scenario_prefixes) 1%Z new_listener talker_topics
  = Ok (talker_listener,
        [trigger_guard_condition 1;
         log_error "rmw_dps_cpp" "failed to trigger guard condition"]).
Proof. vm_compute. reflexivity. Qed.

(** ** A first announcement with the default record *)

(** C9. An announcement that decodes to the default record (its only
    recognised string is the identity marker's) for an identity not in the
    table: [onPublication] inserts the identity, so that
    [get_discovered_nodes] returns one record more, and does not invoke the
    guard condition, the record that [operator[]] default-constructs being
    equal to the decoded one. *)
Theorem onPublication_default_record_unseen {prefixes : NamespacePrefix}
    (ret : rmw_ret_t) (listener : NodeListener) (topics : list string)
    (uuid : string) :
  decode topics = Ok (uuid, Node_default) -> uuid <> EmptyString ->
  discovered_nodes_ listener !! uuid = None ->
  exists listener' evs,
    onPublication ret listener topics = Ok (listener', evs) /\
    discovered_nodes_ listener' !! uuid = Some Node_default /\
    length (get_discovered_nodes listener')
    = S (length (get_discovered_nodes listener)) /\
    triggers evs = 0%nat /\ evs = [].
Proof.
  intros Hd Hne Hnew. rewrite (onPublication_decoded _ _ _ _ _ Hd).
  destruct (decide (uuid = EmptyString)); [done|].
  rewrite Hnew. cbn [from_option]. unfold id.
  destruct (decide (Node_default = Node_default)); [|done].
  eexists _, _. split; [reflexivity|].
  rewrite !get_discovered_nodes_length. cbn [discovered_nodes_].
  split; [apply lookup_insert_eq|].
  split; [by apply map_size_insert_None|done].
Qed.

Lemma onPublication_default_record_unseen_witness :
  exists listener' evs,
    onPublication (prefixes := scenario_prefixes) RMW_RET_OK talker_listener
      ["_did_=fresh"] = Ok (listener', evs) /\
    discovered_nodes_ listener' !! "fresh" = Some Node_default /\
    length (get_discovered_nodes listener')
    = S (length (get_discovered_nodes talker_listener)) /\
    triggers evs = 0%nat /\ evs = [].
Proof.
  apply (onPublication_default_record_unseen (prefixes := scenario_prefixes)
           RMW_RET_OK talker_listener ["_did_=fresh"] "fresh").
  - reflexivity.
  - discriminate.
  - reflexivity.
Defined.

(** * Further properties of the code *)

(** X18. [get_discovered_nodes] returns a copy of the record of every entry of
    the table, in the order of the keys: as many records as identities. *)
Lemma get_discovered_nodes_snapshot (listener : NodeListener) :
  get_discovered_nodes listener = (std_map_items (discovered_nodes_ listener)).*2 /\
  Sorted key_le (std_map_items (discovered_nodes_ listener)) /\
  length (get_discovered_nodes listener) = base.size (discovered_nodes_ listener) /\
  forall node,
    node ∈ get_discovered_nodes listener <->
    exists uuid, discovered_nodes_ listener !! uuid = Some node.
Proof.
  split; [apply get_discovered_nodes_items|].
  split; [apply std_map_items_sorted|].
  split; [apply get_discovered_nodes_length|].
  intros node. rewrite get_discovered_nodes_items, list_elem_of_fmap. split.
  - intros ([uuid node'] & -> & Hin). exists uuid.
    by apply elem_of_std_map_items.
  - intros [uuid Hnode]. exists (uuid, node). split; [done|].
    by apply elem_of_std_map_items.
Qed.

(** X13. An identity marker with nothing after it leaves the identity empty,
    and [onPublication] treats the announcement as one without identity. *)
Lemma onPublication_empty_identity {prefixes : NamespacePrefix}
    (ret : rmw_ret_t) (listener : NodeListener) (topics : list string)
    (node : Node) :
  decode topics = Ok (EmptyString, node) ->
  onPublication ret listener topics = Ok (listener, []).
Proof.
  intros Hd. rewrite (onPublication_decoded _ _ _ _ _ Hd).
  by destruct (decide (EmptyString = EmptyString)).
Qed.

Lemma onPublication_empty_identity_witness :
  onPublication (prefixes := scenario_prefixes) RMW_RET_OK new_listener
    ["_did_="; "_name_=a"] = Ok (new_listener, []).
Proof.
  apply (onPublication_empty_identity (prefixes := scenario_prefixes)
           RMW_RET_OK new_listener ["_did_="; "_name_=a"] (mkNode "a" "/" [] [])).
  reflexivity.
Defined.

Lemma onPublication_total_witness :
  exists listener' evs,
    onPublication (prefixes := scenario_prefixes) RMW_RET_OK talker_listener
      ["no marker"; "_pub_=x"; "&types=_sub_=y,z"; "_did_=k"]
    = Ok (listener', evs).
Proof.
  apply (onPublication_total (prefixes := scenario_prefixes)).
  repeat constructor.
Defined.

(** A ["&types="] that comes before the marker is the one the code finds:
    the length [end_pos - pos] wraps around, the topic name is the whole
    remainder, and the types are read from after that ["&types="], marker
    included. *)
Example process_topic_info_types_before_marker :
  process_topic_info "&types=_pub_=chatter" "_pub_=" Topic_default
  = Ok (true, mkTopic "chatter" ["_pub_=chatter"]).
Proof. vm_compute. reflexivity. Qed.

(** X5. Decoding what an encoder writes: the marker, a topic name,
    ["&types="] and the types joined by commas decode to the topic name and
    the types, when the first ["&types="] of the string is the one written
    and no type holds a comma. *)
Lemma process_topic_info_round_trip (prefix topic_name : string)
    (tys : list string) :
  well_formed (prefix +:+ topic_name +:+ "&types=" +:+ join ","%char tys) ->
  find_from "&types=" (prefix +:+ topic_name +:+ "&types=" +:+ join ","%char tys) 0
  = Some (String.length prefix + String.length topic_name)%nat ->
  tys <> [] -> Forall (fun ty => occurs ","%char ty = false) tys ->
  process_topic_info (prefix +:+ topic_name +:+ "&types=" +:+ join ","%char tys)
                     prefix Topic_default
  = Ok (true, mkTopic topic_name tys).
Proof.
  intros Hwf Hmarker Hne Hno.
  rewrite process_topic_info_encoded by done. by rewrite split_on_join.
Qed.

Lemma process_topic_info_round_trip_witness :
  process_topic_info "_pub_=chatter&types=A,B" "_pub_=" Topic_default
  = Ok (true, mkTopic "chatter" ["A"; "B"]).
Proof.
  apply (process_topic_info_round_trip "_pub_=" "chatter" ["A"; "B"]).
  - reflexivity.
  - reflexivity.
  - discriminate.
  - repeat constructor.
Defined.

(** ** More on [process_topic_info] *)

(** The result of [process_topic_info] on a fresh topic, when the marker is
    found: the descriptor of [descriptor_at]. *)
Lemma process_topic_info_descriptor (s prefix : string) (p : nat) :
  well_formed s -> find_from prefix s 0 = Some p ->
  process_topic_info s prefix Topic_default = Ok (true, descriptor_at s prefix p).
Proof.
  intros Hwf Hp. rewrite (process_topic_info_found s prefix _ p Hwf Hp).
  unfold descriptor_at. by destruct (find_from "&types=" s 0).
Qed.

Lemma carries_find_from (marker s : string) :
  carries marker s <-> exists p, find_from marker s 0 = Some p.
Proof.
  split.
  - intros Hc. destruct (find_from marker s 0) as [p|] eqn:Hp; [by exists p|].
    by apply find_from_None_iff in Hp.
  - intros [p Hp]. apply find_from_Some in Hp as (_ & _ & Hpre).
    exists (string_take p s),
      (string_drop (String.length marker) (string_drop p s)).
    by rewrite <- (prefix_split marker _ Hpre), string_take_drop.
Qed.

(** X4. [process_topic_info] returns [true] exactly for the strings that
    carry the marker; for the others it returns [false] and leaves the topic
    that it was given untouched. *)
Theorem process_topic_info_true_iff_carries (s prefix : string) (t : Topic) :
  well_formed s ->
  (carries prefix s ->
   exists t', process_topic_info s prefix t = Ok (true, t')) /\
  (~ carries prefix s -> process_topic_info s prefix t = Ok (false, t)).
Proof.
  intros Hwf. split.
  - intros [p Hp]%carries_find_from.
    rewrite (process_topic_info_found s prefix t p Hwf Hp). by eexists.
  - intros Hno%find_from_None_iff. by apply process_topic_info_not_found.
Qed.

Lemma process_topic_info_true_iff_carries_witness :
  (exists t', process_topic_info "x_sub_=scan" "_sub_=" Topic_default
              = Ok (true, t')) /\
  process_topic_info "_pub_=scan" "_sub_=" (mkTopic "kept" ["K"])
  = Ok (false, mkTopic "kept" ["K"]).
Proof.
  split.
  - apply (process_topic_info_true_iff_carries "x_sub_=scan" "_sub_=");
      [reflexivity|]. by exists "x", "scan".
  - apply (process_topic_info_true_iff_carries "_pub_=scan" "_sub_=");
      [reflexivity|]. apply find_from_None_iff. reflexivity.
Defined.

(** X3. When the first ["&types="] of the string stands before the end of
    the marker, the length [end_pos - pos] wraps around: the topic name is
    the whole remainder after the marker, and the types are the
    comma-separated segments of what follows that ["&types="], the marker
    and the topic name among them. *)
Theorem process_topic_info_types_before_name (s prefix : string) (p e : nat) :
  well_formed s -> find_from prefix s 0 = Some p ->
  find_from "&types=" s 0 = Some e -> (e < name_start prefix p)%nat ->
  process_topic_info s prefix Topic_default
  = Ok (true, mkTopic (string_drop (name_start prefix p) s)
                      (split_on ","%char (string_drop (e + 7) s))).
Proof.
  intros Hwf Hp He Hlt. rewrite (process_topic_info_found s prefix _ p Hwf Hp), He.
  destruct (Nat.leb_spec (name_start prefix p) e); [lia|done].
Qed.

Lemma process_topic_info_types_before_name_witness :
  process_topic_info "&types=A,_pub_=chatter" "_pub_=" Topic_default
  = Ok (true, mkTopic "chatter" ["A"; "_pub_=chatter"]).
Proof.
  apply (process_topic_info_types_before_name
           "&types=A,_pub_=chatter" "_pub_=" 9 0); try reflexivity.
  unfold name_start. simpl. lia.
Defined.

Lemma split_on_length (sep : Ascii.ascii) (s : string) :
  length (split_on sep s) = S (count_char sep s).
Proof.
  induction s as [|c s IH]; [done|]. cbn [split_on count_char].
  destruct (Ascii.eqb c sep); [simpl; by rewrite IH|].
  pose proof (split_on_nonempty sep s).
  destruct (split_on sep s) as [|seg segs]; [done|]. simpl in *. lia.
Qed.

(** X6. A type list with [n] commas decodes to [n + 1] types: for a string
    made of the marker, a topic name, ["&types="] and a type list, whose
    first ["&types="] is that one, the number of decoded types is one more
    than the number of commas of the type list (one type, the empty string,
    for an empty type list). *)
Theorem process_topic_info_type_count (prefix topic_name type_list : string) :
  well_formed (prefix +:+ topic_name +:+ "&types=" +:+ type_list) ->
  find_from "&types=" (prefix +:+ topic_name +:+ "&types=" +:+ type_list) 0
  = Some (String.length prefix + String.length topic_name)%nat ->
  exists tys,
    process_topic_info (prefix +:+ topic_name +:+ "&types=" +:+ type_list)
                       prefix Topic_default
    = Ok (true, mkTopic topic_name tys) /\
    length tys = S (count_char ","%char type_list) /\
    (type_list = EmptyString -> tys = [EmptyString]).
Proof.
  intros Hwf Hmarker. eexists. split; [by apply process_topic_info_encoded|].
  split; [apply split_on_length|]. by intros ->.
Qed.

Lemma process_topic_info_type_count_witness :
  exists tys,
    process_topic_info "_pub_=chatter&types=A,B,,C" "_pub_=" Topic_default
    = Ok (true, mkTopic "chatter" tys) /\
    length tys = 4%nat /\
    ("A,B,,C" = EmptyString -> tys = [EmptyString]).
Proof.
  apply (process_topic_info_type_count "_pub_=" "chatter" "A,B,,C");
    reflexivity.
Defined.

Lemma append_assoc (a b c : string) : (a +:+ b) +:+ c = a +:+ b +:+ c.
Proof.
  induction a as [|x a IH]; [done|]. by rewrite !append_String, IH.
Qed.

(** An occurrence after [before] shows at the index [length before]. *)
Lemma prefix_at_occurrence (marker before after : string) :
  String.prefix marker
    (string_drop (String.length before) (before +:+ marker +:+ after)) = true.
Proof. by rewrite string_drop_app, prefix_app. Qed.

(** X7. The descriptor that [process_topic_info] decodes is clean: no type
    holds a comma, and, unless the first ["&types="] of the string stands
    before the topic name, the topic name does not carry ["&types="]. *)
Theorem process_topic_info_descriptor_clean (s prefix : string) (p : nat) :
  well_formed s -> find_from prefix s 0 = Some p ->
  exists t',
    process_topic_info s prefix Topic_default = Ok (true, t') /\
    Forall (fun ty => occurs ","%char ty = false) (types t') /\
    ((forall e, find_from "&types=" s 0 = Some e ->
                (name_start prefix p <= e)%nat) ->
     ~ carries "&types=" (topic t')).
Proof.
  intros Hwf Hp. exists (descriptor_at s prefix p).
  split; [by apply process_topic_info_descriptor|].
  unfold descriptor_at. set (start := name_start prefix p).
  destruct (find_from "&types=" s 0) as [e|] eqn:He; cbn [types topic].
  - split; [apply split_on_no_sep|]. intros Hle (before & after & Htopic).
    specialize (Hle e eq_refl).
    destruct (Nat.leb_spec start e) as [_|]; [|lia].
    pose proof (f_equal String.length Htopic) as Hlen.
    rewrite string_take_length, !string_length_app in Hlen.
    change (String.length "&types=") with 7%nat in Hlen.
    pose proof (find_from_first "&types=" s 0 e
                  (start + String.length before) He) as Hfirst.
    rewrite <- string_drop_drop in Hfirst.
    rewrite <- (string_take_drop (e - start) (string_drop start s)) in Hfirst.
    rewrite Htopic, !append_assoc, prefix_at_occurrence in Hfirst.
    discriminate Hfirst. lia.
  - split; [apply split_on_no_sep|]. intros _ (before & after & Htopic).
    apply find_from_None_iff in He. apply He.
    exists (string_take start s +:+ before), after.
    by rewrite append_assoc, <- Htopic, string_take_drop.
Qed.

Lemma process_topic_info_descriptor_clean_witness :
  exists t',
    process_topic_info "_pub_=chatter&types=A&types=B,C" "_pub_=" Topic_default
    = Ok (true, t') /\
    Forall (fun ty => occurs ","%char ty = false) (types t') /\
    ~ carries "&types=" (topic t').
Proof.
  destruct (process_topic_info_descriptor_clean
              "_pub_=chatter&types=A&types=B,C" "_pub_=" 0)
    as (t' & Hcall & Htypes & Htopic); [reflexivity|reflexivity|].
  exists t'. split; [exact Hcall|]. split; [exact Htypes|].
  apply Htopic. intros e [= <-]. unfold name_start. simpl. lia.
Defined.

(** ** More on the decoding of a publication *)

Section DecodeMore.
Context {prefixes : NamespacePrefix}.

Lemma decode_loop_app (l1 l2 : list string) (acc : string * Node) :
  decode_loop (l1 ++ l2) acc
  = do acc' <- decode_loop l1 acc; decode_loop l2 acc'.
Proof.
  revert acc. induction l1 as [|s l1 IH]; intros acc; [done|].
  cbn [app decode_loop]. destruct (decode_step acc s); cbn [bind]; [apply IH|done].
Qed.

(** What one iteration of the loop does, by the first marker that the
    string carries in the order of the tests. *)
Lemma decode_step_cases (uuid : string) (node : Node) (s : string) :
  well_formed s ->
  decode_step (uuid, node) s
  = Ok match find_from dps_uuid_prefix s 0 with
       | Some p => (string_drop (name_start dps_uuid_prefix p) s, node)
       | None =>
       match find_from dps_namespace_prefix s 0 with
       | Some p =>
           (uuid, mkNode (name node)
                         (string_drop (name_start dps_namespace_prefix p) s)
                         (publishers node) (subscribers node))
       | None =>
       match find_from dps_name_prefix s 0 with
       | Some p =>
           (uuid, mkNode (string_drop (name_start dps_name_prefix p) s)
                         (namespace_ node) (publishers node) (subscribers node))
       | None =>
       match find_from dps_publisher_prefix s 0 with
       | Some p =>
           (uuid, mkNode (name node) (namespace_ node)
                         (publishers node
                          ++ [descriptor_at s dps_publisher_prefix p])
                         (subscribers node))
       | None =>
       match find_from dps_subscriber_prefix s 0 with
       | Some p =>
           (uuid, mkNode (name node) (namespace_ node) (publishers node)
                         (subscribers node
                          ++ [descriptor_at s dps_subscriber_prefix p]))
       | None => (uuid, node)
       end end end end end.
Proof.
  intros Hwf. unfold decode_step. cbv zeta.
  rewrite (marker_step s dps_uuid_prefix) by done.
  destruct (find_from dps_uuid_prefix s 0); [done|].
  rewrite (marker_step s dps_namespace_prefix) by done.
  destruct (find_from dps_namespace_prefix s 0); [done|].
  rewrite (marker_step s dps_name_prefix) by done.
  destruct (find_from dps_name_prefix s 0); [done|].
  destruct (find_from dps_publisher_prefix s 0) as [p|] eqn:Hpub.
  { by rewrite (process_topic_info_descriptor s _ p Hwf Hpub). }
  rewrite (process_topic_info_not_found s _ _ Hpub). cbn [bind].
  destruct (find_from dps_subscriber_prefix s 0) as [p|] eqn:Hsub.
  { by rewrite (process_topic_info_descriptor s _ p Hwf Hsub). }
  by rewrite (process_topic_info_not_found s _ _ Hsub).
Qed.

(** A string that carries none of the five markers changes nothing. *)
Lemma decode_step_ignored (acc : string * Node) (s : string) :
  ~ carries dps_uuid_prefix s -> ~ carries dps_namespace_prefix s ->
  ~ carries dps_name_prefix s -> ~ carries dps_publisher_prefix s ->
  ~ carries dps_subscriber_prefix s ->
  decode_step acc s = Ok acc.
Proof.
  intros Hu%find_from_None_iff Hns%find_from_None_iff Hn%find_from_None_iff
    Hp%find_from_None_iff Hs%find_from_None_iff.
  unfold decode_step. destruct acc as [uuid node]. cbv zeta.
  rewrite !find_not_found, !N.eqb_refl by done. cbn [negb].
  rewrite (process_topic_info_not_found s _ _ Hp). cbn [bind].
  by rewrite (process_topic_info_not_found s _ _ Hs).
Qed.


(** X9. Strings that carry none of the five markers are ignored wherever
    they stand in the publication: decoding with such a string gives what
    decoding without it gives. *)
Theorem decode_ignores_unmatched (l1 l2 : list string) (s : string) :
  ~ carries dps_uuid_prefix s -> ~ carries dps_namespace_prefix s ->
  ~ carries dps_name_prefix s -> ~ carries dps_publisher_prefix s ->
  ~ carries dps_subscriber_prefix s ->
  decode (l1 ++ s :: l2) = decode (l1 ++ l2).
Proof.
  intros Hu Hns Hn Hp Hs. unfold decode. rewrite !decode_loop_app.
  destruct (decode_loop l1 (EmptyString, Node_default)) as [acc|]; [|done].
  cbn [bind decode_loop]. by rewrite decode_step_ignored.
Qed.

(** X10. The last identity wins and the record is kept: a publication
    followed by one more string, the identity marker and [u], decodes to the
    identity [u] and the record of the publication. *)
Theorem decode_last_identity_wins (topics : list string) (uuid u : string)
    (node : Node) :
  well_formed (dps_uuid_prefix +:+ u) ->
  decode topics = Ok (uuid, node) ->
  decode (topics ++ [dps_uuid_prefix +:+ u]) = Ok (u, node).
Proof.
  intros Hwf Hd. unfold decode in *. rewrite decode_loop_app, Hd.
  cbn [bind decode_loop]. rewrite (decode_step_cases _ _ _ Hwf).
  rewrite find_from_app. cbn [bind]. unfold name_start. cbn [Nat.add].
  by rewrite string_drop_app.
Qed.

End DecodeMore.


Lemma decode_ignores_unmatched_witness :
  decode (prefixes := scenario_prefixes)
    (["_did_=a"] ++ "not a marker" :: ["_name_=n"])
  = decode (prefixes := scenario_prefixes) (["_did_=a"] ++ ["_name_=n"]).
Proof.
  apply (decode_ignores_unmatched (prefixes := scenario_prefixes));
    apply find_from_None_iff; reflexivity.
Defined.

Lemma decode_last_identity_wins_witness :
  decode (prefixes := scenario_prefixes) (talker_topics ++ ["_did_=" +:+ "later"])
  = Ok ("later", talker_node).
Proof.
  apply (decode_last_identity_wins (prefixes := scenario_prefixes)
           talker_topics "abc123" "later" talker_node); reflexivity.
Defined.

Section DecodeGrowth.
Context {prefixes : NamespacePrefix}.




End DecodeGrowth.


(** ** More on the table *)


(** X15. [onPublication] never removes an identity, never stores a record
    under the empty identity, and never changes the guard condition of the
    listener: the table after holds every identity of the table before, and
    at most one more. *)
Theorem onPublication_no_eviction {prefixes : NamespacePrefix}
    (ret : rmw_ret_t) (listener : NodeListener) (topics : list string) :
  Forall well_formed topics ->
  exists listener' evs,
    onPublication ret listener topics = Ok (listener', evs) /\
    graph_guard_condition_ listener' = graph_guard_condition_ listener /\
    dom (discovered_nodes_ listener) ⊆ dom (discovered_nodes_ listener') /\
    (base.size (discovered_nodes_ listener)
     <= base.size (discovered_nodes_ listener')
     <= S (base.size (discovered_nodes_ listener)))%nat /\
    (discovered_nodes_ listener !! EmptyString = None ->
     discovered_nodes_ listener' !! EmptyString = None).
Proof.
  intros Hwf. destruct (decode_total topics Hwf) as (uuid & node & Hd).
  rewrite (onPublication_decoded _ _ _ _ _ Hd).
  destruct (decide (uuid = EmptyString)) as [->|Hne].
  - eexists _, _. split; [reflexivity|]. repeat split; (done || lia).
  - eexists _, _. split; [reflexivity|]. cbn [discovered_nodes_].
    split; [done|]. split; [rewrite dom_insert_L; set_solver|].
    split; [|intros Hempty; by rewrite lookup_insert_ne].
    rewrite map_size_insert.
    destruct (discovered_nodes_ listener !! uuid); unfold id; lia.
Qed.

Lemma onPublication_no_eviction_witness :
  exists listener' evs,
    onPublication (prefixes := scenario_prefixes) RMW_RET_OK talker_listener
      ["_did_=other"; "_name_=listener"] = Ok (listener', evs) /\
    graph_guard_condition_ listener' = graph_guard_condition_ talker_listener /\
    dom (discovered_nodes_ talker_listener) ⊆ dom (discovered_nodes_ listener') /\
    (base.size (discovered_nodes_ talker_listener)
     <= base.size (discovered_nodes_ listener')
     <= S (base.size (discovered_nodes_ talker_listener)))%nat /\
    (discovered_nodes_ talker_listener !! EmptyString = None ->
     discovered_nodes_ listener' !! EmptyString = None).
Proof.
  apply (onPublication_no_eviction (prefixes := scenario_prefixes)).
  repeat constructor.
Defined.

(** X16. The calls that [onPublication] makes: none, or one trigger of the
    listener's own guard condition, followed by the one error log line
    exactly when the trigger did not return [RMW_RET_OK]. Nothing is logged
    without a failed trigger, and the guard condition is never triggered
    twice. *)
Theorem onPublication_trace {prefixes : NamespacePrefix}
    (ret : rmw_ret_t) (listener : NodeListener) (topics : list string) :
  Forall well_formed topics ->
  exists listener' evs,
    onPublication ret listener topics = Ok (listener', evs) /\
    (evs = [] \/
     (ret = RMW_RET_OK /\
      evs = [trigger_guard_condition (graph_guard_condition_ listener)]) \/
     (ret <> RMW_RET_OK /\
      evs = [trigger_guard_condition (graph_guard_condition_ listener);
             log_error "rmw_dps_cpp" "failed to trigger guard condition"])) /\
    (triggers evs <= 1)%nat.
Proof.
  intros Hwf. destruct (decode_total topics Hwf) as (uuid & node & Hd).
  rewrite (onPublication_decoded _ _ _ _ _ Hd).
  repeat case_decide; eexists _, _; (split; [reflexivity|]);
    unfold triggers; simpl; (split; [|lia]); auto.
Qed.

Lemma onPublication_trace_witness :
  exists listener' evs,
    onPublication (prefixes := scenario_prefixes) 2%Z new_listener talker_topics
    = Ok (listener', evs) /\
    (evs = [] \/
     (2%Z = RMW_RET_OK /\
      evs = [trigger_guard_condition (graph_guard_condition_ new_listener)]) \/
     (2%Z <> RMW_RET_OK /\
      evs = [trigger_guard_condition (graph_guard_condition_ new_listener);
             log_error "rmw_dps_cpp" "failed to trigger guard condition"])) /\
    (triggers evs <= 1)%nat.
Proof.
  apply (onPublication_trace (prefixes := scenario_prefixes)).
  repeat constructor.
Defined.

(** X17. Announcements of two different identities commute: delivered in
    either order they make the same calls each and leave the same table. *)
Theorem onPublication_commute {prefixes : NamespacePrefix}
    (ret_a ret_b : rmw_ret_t) (listener : NodeListener)
    (topics_a topics_b : list string) (uuid_a uuid_b : string)
    (node_a node_b : Node) :
  decode topics_a = Ok (uuid_a, node_a) ->
  decode topics_b = Ok (uuid_b, node_b) ->
  uuid_a <> uuid_b ->
  exists listener_a listener_b listener_ab evs_a evs_b,
    onPublication ret_a listener topics_a = Ok (listener_a, evs_a) /\
    onPublication ret_b listener_a topics_b = Ok (listener_ab, evs_b) /\
    onPublication ret_b listener topics_b = Ok (listener_b, evs_b) /\
    onPublication ret_a listener_b topics_a = Ok (listener_ab, evs_a).
Proof.
  intros Ha Hb Hne.
  destruct (decide (uuid_a = EmptyString)) as [->|Hane].
  { (* the first announcement has no identity *)
    destruct (onPublication ret_b listener topics_b) as [[listener_b evs_b]|]
      eqn:Hcall_b.
    2: { rewrite (onPublication_decoded _ _ _ _ _ Hb) in Hcall_b. done. }
    exists listener, listener_b, listener_b, [], evs_b.
    rewrite !(onPublication_decoded _ _ _ _ _ Ha), Hcall_b.
    by destruct (decide (EmptyString = EmptyString)). }
  destruct (decide (uuid_b = EmptyString)) as [->|Hbne].
  { (* the second announcement has no identity *)
    destruct (onPublication ret_a listener topics_a) as [[listener_a evs_a]|]
      eqn:Hcall_a.
    2: { rewrite (onPublication_decoded _ _ _ _ _ Ha) in Hcall_a. done. }
    exists listener_a, listener, listener_a, evs_a, [].
    rewrite !(onPublication_decoded _ _ _ _ _ Hb), Hcall_a.
    by destruct (decide (EmptyString = EmptyString)). }
  rewrite !(onPublication_decoded _ _ _ _ _ Ha).
  destruct (decide (uuid_a = EmptyString)); [done|].
  eexists _, _, _, _, _. split; [reflexivity|].
  rewrite !(onPublication_decoded _ _ _ _ _ Hb).
  destruct (decide (uuid_b = EmptyString)); [done|].
  cbn [discovered_nodes_ graph_guard_condition_].
  rewrite lookup_insert_ne by done.
  split; [reflexivity|]. split; [reflexivity|].
  rewrite !(onPublication_decoded _ _ _ _ _ Ha).
  destruct (decide (uuid_a = EmptyString)); [done|].
  cbn [discovered_nodes_ graph_guard_condition_].
  rewrite lookup_insert_ne by done.
  by rewrite (insert_insert_ne _ uuid_a uuid_b).
Qed.

Lemma onPublication_commute_witness :
  exists listener_a listener_b listener_ab evs_a evs_b,
    onPublication (prefixes := scenario_prefixes) RMW_RET_OK new_listener
      talker_topics = Ok (listener_a, evs_a) /\
    onPublication (prefixes := scenario_prefixes) 1%Z listener_a
      ["_did_=n2"; "_sub_=chatter&types=T"] = Ok (listener_ab, evs_b) /\
    onPublication (prefixes := scenario_prefixes) 1%Z new_listener
      ["_did_=n2"; "_sub_=chatter&types=T"] = Ok (listener_b, evs_b) /\
    onPublication (prefixes := scenario_prefixes) RMW_RET_OK listener_b
      talker_topics = Ok (listener_ab, evs_a).
Proof.
  apply (onPublication_commute (prefixes := scenario_prefixes)
           RMW_RET_OK 1%Z new_listener talker_topics
           ["_did_=n2"; "_sub_=chatter&types=T"] "abc123" "n2" talker_node
           (mkNode "" "/" [] [mkTopic "chatter" ["T"]]));
    [reflexivity|reflexivity|discriminate].
Defined.

Lemma elem_of_get_discovered_nodes (listener : NodeListener) (node : Node) :
  node ∈ get_discovered_nodes listener <->
  exists uuid, discovered_nodes_ listener !! uuid = Some node.
Proof.
  rewrite get_discovered_nodes_items, list_elem_of_fmap. split.
  - intros ([uuid node'] & -> & Hin). exists uuid.
    by apply elem_of_std_map_items.
  - intros [uuid Hnode]. exists (uuid, node). split; [done|].
    by apply elem_of_std_map_items.
Qed.

(** X19. After an announcement with an identity, [get_discovered_nodes]
    returns the decoded record and the records of the other identities: one
    record more than before for an identity not yet in the table, as many as
    before otherwise, and the record stored before for that identity is no
    longer looked up under it. *)
Theorem get_discovered_nodes_after_announcement {prefixes : NamespacePrefix}
    (ret : rmw_ret_t) (listener : NodeListener) (topics : list string)
    (uuid : string) (node : Node) :
  decode topics = Ok (uuid, node) -> uuid <> EmptyString ->
  exists listener' evs,
    onPublication ret listener topics = Ok (listener', evs) /\
    node ∈ get_discovered_nodes listener' /\
    (forall other stored,
       other <> uuid -> discovered_nodes_ listener !! other = Some stored ->
       stored ∈ get_discovered_nodes listener') /\
    (forall stored,
       stored ∈ get_discovered_nodes listener' ->
       stored = node \/
       exists other, other <> uuid /\
                     discovered_nodes_ listener !! other = Some stored) /\
    length (get_discovered_nodes listener')
    = match discovered_nodes_ listener !! uuid with
      | Some _ => length (get_discovered_nodes listener)
      | None => S (length (get_discovered_nodes listener))
      end.
Proof.
  intros Hd Hne. rewrite (onPublication_decoded _ _ _ _ _ Hd).
  destruct (decide (uuid = EmptyString)); [done|].
  eexists _, _. split; [reflexivity|].
  split; [|split; [|split]].
  - apply elem_of_get_discovered_nodes. exists uuid. apply lookup_insert_eq.
  - intros other stored Hother Hstored. apply elem_of_get_discovered_nodes.
    exists other. cbn [discovered_nodes_]. by rewrite lookup_insert_ne.
  - intros stored [k Hk]%elem_of_get_discovered_nodes.
    cbn [discovered_nodes_] in Hk. destruct (decide (k = uuid)) as [->|Hk'].
    + rewrite lookup_insert_eq in Hk. left. congruence.
    + rewrite lookup_insert_ne in Hk by done. right. by exists k.
  - rewrite !get_discovered_nodes_length. cbn [discovered_nodes_].
    rewrite map_size_insert. by destruct (discovered_nodes_ listener !! uuid).
Qed.

Lemma get_discovered_nodes_after_announcement_witness :
  exists listener' evs,
    onPublication (prefixes := scenario_prefixes) RMW_RET_OK two_talkers
      ["_did_=n2"; "_name_=relay2"] = Ok (listener', evs) /\
    mkNode "relay2" "/" [] [] ∈ get_discovered_nodes listener' /\
    (forall other stored,
       other <> "n2" -> discovered_nodes_ two_talkers !! other = Some stored ->
       stored ∈ get_discovered_nodes listener') /\
    (forall stored,
       stored ∈ get_discovered_nodes listener' ->
       stored = mkNode "relay2" "/" [] [] \/
       exists other, other <> "n2" /\
                     discovered_nodes_ two_talkers !! other = Some stored) /\
    length (get_discovered_nodes listener')
    = match discovered_nodes_ two_talkers !! "n2" with
      | Some _ => length (get_discovered_nodes two_talkers)
      | None => S (length (get_discovered_nodes two_talkers))
      end.
Proof.
  apply (get_discovered_nodes_after_announcement (prefixes := scenario_prefixes)
           RMW_RET_OK two_talkers ["_did_=n2"; "_name_=relay2"] "n2"
           (mkNode "relay2" "/" [] [])); [reflexivity|discriminate].
Defined.

(** X20. The two kinds of read agree: [count_publishers] is the number of
    publisher descriptors named [topic_name] in the records that
    [get_discovered_nodes] returns (as a [size_t]), and [count_subscribers]
    the number of such subscriber descriptors. *)
Theorem count_agrees_with_snapshot (listener : NodeListener)
    (topic_name : string) :
  count_publishers listener topic_name
  = N.of_nat (length (named topic_name
                        (mjoin (publishers <$> get_discovered_nodes listener))))
    mod SIZE_MODULUS /\
  count_subscribers listener topic_name
  = N.of_nat (length (named topic_name
                        (mjoin (subscribers <$> get_discovered_nodes listener))))
    mod SIZE_MODULUS.
Proof.
  unfold count_publishers, count_subscribers.
  rewrite !count_loop by done. by rewrite !N.add_0_l, get_discovered_nodes_items.
Qed.

Section CountAfter.
Variable field : Node -> list Topic.
Variable topic_name : string.
Hypothesis field_default : field Node_default = [].

(** The descriptors named [topic_name] in the table after [k] is set to [v],
    against those before: the ones of [v] come, the ones of the record
    stored under [k] go. *)
Lemma named_insert (m : gmap string Node) (k : string) (v : Node) :
  (length (named topic_name (mjoin (field <$> (map_to_list (<[k:=v]> m)).*2)))
   + length (named topic_name (field (default Node_default (m !! k)))))%nat
  = (length (named topic_name (mjoin (field <$> (map_to_list m).*2)))
     + length (named topic_name (field v)))%nat.
Proof.
  unfold named. destruct (m !! k) as [old|] eqn:Hk; cbn [from_option]; unfold id.
  - rewrite <- (insert_delete_eq m k v).
    rewrite map_to_list_insert by apply lookup_delete_eq.
    rewrite <- (map_to_list_delete m k old Hk).
    rewrite !fmap_cons. cbn [snd mjoin list_join].
    rewrite !filter_app, !length_app. lia.
  - rewrite map_to_list_insert by done.
    rewrite !fmap_cons. cbn [snd mjoin list_join].
    rewrite field_default, filter_nil, filter_app, length_app.
    cbn [length]. rewrite Nat.add_0_r. apply Nat.add_comm.
Qed.

End CountAfter.

Section CountInsert.
Variable field : Node -> list Topic.
Variable topic_name : string.
Hypothesis field_default : field Node_default = [].

(** The loop of the two counts over the table after [k] is set to [v],
    against the loop over the table before. *)
Lemma count_loop_insert (m : gmap string Node) (k : string) (v : Node) :
  let count m :=
    foldl (fun count (it : string * Node) =>
             count +% count_if (fun d => String.eqb (topic d) topic_name)
                               (field it.2))
          0 (std_map_items m) in
  (count (<[k:=v]> m)
   + N.of_nat (length (named topic_name
                         (field (default Node_default (m !! k))))))
  mod SIZE_MODULUS
  = (count m + N.of_nat (length (named topic_name (field v))))
    mod SIZE_MODULUS /\
  (m !! k = None ->
   N.of_nat (length (named topic_name
                       (mjoin (field <$> (map_to_list (<[k:=v]> m)).*2))))
   < SIZE_MODULUS ->
   count (<[k:=v]> m)
   = count m + N.of_nat (length (named topic_name (field v)))).
Proof.
  cbv beta zeta. rewrite !count_loop_items.
  pose proof (named_insert field topic_name field_default m k v) as Hins.
  split.
  - rewrite !N.Div0.add_mod_idemp_l. f_equal. lia.
  - intros Hk Hfit. rewrite Hk in Hins. cbn [from_option] in Hins.
    unfold id in Hins. rewrite field_default in Hins.
    change (length (named topic_name [])) with 0%nat in Hins.
    rewrite !N.mod_small by lia. lia.
Qed.

End CountInsert.

(** X21. The counts follow the announcements: after an announcement for
    [uuid], the descriptors named [topic_name] of the decoded record are
    counted and those of the record stored before for [uuid] no longer are
    (in the arithmetic of [size_t]); for an identity not yet in the table the
    count grows by the number of such descriptors of the decoded record. *)
Theorem count_after_announcement {prefixes : NamespacePrefix}
    (ret : rmw_ret_t) (listener : NodeListener) (topics : list string)
    (uuid : string) (node : Node) (topic_name : string) :
  decode topics = Ok (uuid, node) -> uuid <> EmptyString ->
  exists listener' evs,
    onPublication ret listener topics = Ok (listener', evs) /\
    (count_publishers listener' topic_name
     + N.of_nat (length (named topic_name
                   (publishers (default Node_default
                                  (discovered_nodes_ listener !! uuid))))))
    mod SIZE_MODULUS
    = (count_publishers listener topic_name
       + N.of_nat (length (named topic_name (publishers node))))
      mod SIZE_MODULUS /\
    (count_subscribers listener' topic_name
     + N.of_nat (length (named topic_name
                   (subscribers (default Node_default
                                   (discovered_nodes_ listener !! uuid))))))
    mod SIZE_MODULUS
    = (count_subscribers listener topic_name
       + N.of_nat (length (named topic_name (subscribers node))))
      mod SIZE_MODULUS /\
    (discovered_nodes_ listener !! uuid = None ->
     N.of_nat (length (named topic_name
                         (published (discovered_nodes_ listener'))))
     < SIZE_MODULUS ->
     count_publishers listener' topic_name
     = count_publishers listener topic_name
       + N.of_nat (length (named topic_name (publishers node)))) /\
    (discovered_nodes_ listener !! uuid = None ->
     N.of_nat (length (named topic_name
                         (subscribed (discovered_nodes_ listener'))))
     < SIZE_MODULUS ->
     count_subscribers listener' topic_name
     = count_subscribers listener topic_name
       + N.of_nat (length (named topic_name (subscribers node)))).
Proof.
  intros Hd Hne. rewrite (onPublication_decoded _ _ _ _ _ Hd).
  destruct (decide (uuid = EmptyString)); [done|].
  eexists _, _. split; [reflexivity|].
  unfold count_publishers, count_subscribers, published, subscribed.
  cbn [discovered_nodes_].
  destruct (count_loop_insert publishers topic_name eq_refl
              (discovered_nodes_ listener) uuid node) as [Hpub Hpub_new].
  destruct (count_loop_insert subscribers topic_name eq_refl
              (discovered_nodes_ listener) uuid node) as [Hsub Hsub_new].
  done.
Qed.

Lemma count_after_announcement_witness :
  exists listener' evs,
    onPublication (prefixes := scenario_prefixes) RMW_RET_OK two_talkers
      ["_did_=n3"; "_pub_=chatter&types=A"; "_pub_=scan&types=L"]
    = Ok (listener', evs) /\
    count_publishers listener' "chatter" = 4 /\
    count_publishers two_talkers "chatter" = 3.
Proof.
  destruct (count_after_announcement (prefixes := scenario_prefixes)
              RMW_RET_OK two_talkers
              ["_did_=n3"; "_pub_=chatter&types=A"; "_pub_=scan&types=L"]
              "n3" (mkNode "" "/" [mkTopic "chatter" ["A"]; mkTopic "scan" ["L"]] [])
              "chatter")
    as (listener' & evs & Hcall & _ & _ & Hnew & _);
    [reflexivity|discriminate|].
  exists listener', evs. split; [exact Hcall|].
  assert (count_publishers two_talkers "chatter" = 3) as Hbefore
    by (vm_compute; reflexivity).
  split; [|exact Hbefore].
  rewrite Hnew, Hbefore; [reflexivity|reflexivity|].
  assert (onPublication (prefixes := scenario_prefixes) RMW_RET_OK two_talkers
            ["_did_=n3"; "_pub_=chatter&types=A"; "_pub_=scan&types=L"]
          = Ok (mkNodeListener
                  (<["n3" := mkNode "" "/" [mkTopic "chatter" ["A"];
                                            mkTopic "scan" ["L"]] []]>
                     (discovered_nodes_ two_talkers)) 1,
                [trigger_guard_condition 1])) as Hresult
    by (vm_compute; reflexivity).
  rewrite Hresult in Hcall. injection Hcall as <- _.
  vm_compute. reflexivity.
Defined.

(** ** Publications one after the other *)

Section Deliver.
Context {prefixes : NamespacePrefix}.



End Deliver.


(** ** [operator==] *)

(** X23. [Topic::operator==] and [Node::operator==] decide structural
    equality: two topics are equal when they have the same name and the same
    types in the same order, two nodes when their four fields are equal, the
    descriptors compared in order. Both are reflexive and symmetric. *)
Theorem operator_eq_structural :
  (forall a b : Topic,
     Topic_eq a b = true <-> topic a = topic b /\ types a = types b) /\
  (forall a b : Node, Node_eq a b = true <-> structurally_equal a b) /\
  (forall a : Node, Node_eq a a = true) /\
  (forall a b : Node, Node_eq a b = Node_eq b a) /\
  (forall a b c : Node,
     Node_eq a b = true -> Node_eq b c = true -> Node_eq a c = true).
Proof.
  split; [|split; [|split; [|split]]].
  - intros a b. rewrite Topic_eq_spec. destruct a, b; simpl.
    split; [by intros [= -> ->]|by intros [-> ->]].
  - intros a b. by rewrite Node_eq_spec, structurally_equal_eq.
  - intros a. by apply Node_eq_spec.
  - intros a b. apply eq_true_iff_eq. rewrite !Node_eq_spec. split; congruence.
  - intros a b c. rewrite !Node_eq_spec. congruence.
Qed.

(** ** An identity marker with nothing after it *)

Lemma append_Empty_r (s : string) : s +:+ EmptyString = s.
Proof. induction s as [|c s IH]; [done|]. by rewrite append_String, IH. Qed.

Lemma find_from_self (marker : string) : find_from marker marker 0 = Some 0%nat.
Proof.
  pose proof (find_from_app marker EmptyString) as Hfind.
  by rewrite append_Empty_r in Hfind.
Qed.

Lemma string_drop_all (s : string) :
  string_drop (String.length s) s = EmptyString.
Proof.
  pose proof (string_drop_app s EmptyString) as Hdrop.
  by rewrite append_Empty_r in Hdrop.
Qed.

(** X14. A bare identity marker as the last string erases the identity: the
    publication decodes to the empty identity whatever identity the strings
    before it carried, and [onPublication] drops it without a change of the
    table or a call. *)
Theorem onPublication_bare_identity_marker {prefixes : NamespacePrefix}
    (ret : rmw_ret_t) (listener : NodeListener) (topics : list string)
    (uuid : string) (node : Node) :
  well_formed dps_uuid_prefix ->
  decode topics = Ok (uuid, node) ->
  decode (topics ++ [dps_uuid_prefix]) = Ok (EmptyString, node) /\
  onPublication ret listener (topics ++ [dps_uuid_prefix]) = Ok (listener, []).
Proof.
  intros Hwf Hd.
  assert (decode (topics ++ [dps_uuid_prefix]) = Ok (EmptyString, node)) as Hd'.
  { unfold decode in *. rewrite decode_loop_app, Hd. cbn [bind decode_loop].
    rewrite (decode_step_cases _ _ _ Hwf), find_from_self. cbn [bind].
    unfold name_start. cbn [Nat.add]. by rewrite string_drop_all. }
  split; [done|]. rewrite (onPublication_decoded _ _ _ _ _ Hd').
  by destruct (decide (EmptyString = EmptyString)).
Qed.

Lemma onPublication_bare_identity_marker_witness :
  decode (prefixes := scenario_prefixes) (talker_topics ++ ["_did_="])
  = Ok (EmptyString, talker_node) /\
  onPublication (prefixes := scenario_prefixes) RMW_RET_OK new_listener
    (talker_topics ++ ["_did_="]) = Ok (new_listener, []).
Proof.
  apply (onPublication_bare_identity_marker (prefixes := scenario_prefixes)
           RMW_RET_OK new_listener talker_topics "abc123" talker_node);
    reflexivity.
Defined.
